(** * A shallow embedding of the CI/CD pipeline engine

    The development follows the Python sources:
    - [shared/yaml_parser.py]   manifest validation ([YAMLParser]),
    - [shared/logger.py]        the append-only structured log ([Logger]),
    - [worker/docker_executor.py] the container runner ([DockerExecutor]),
    - [worker/job_processor.py] the sequential step loop ([JobProcessor]),
    - [worker/job_executors.py] confirmation callbacks and job groups.

    Python values are modelled as follows.  A [str] is a [string] whose
    characters are code points below 128 (the manifests, run ids and log
    grammar are ASCII; a byte above 127 is kept as it is and is neither
    whitespace nor a cased letter).  An [int] is a [Z]: Python integers do
    not wrap.  A [float] is a [spec_float], the IEEE 754 value.  A raised
    exception is the [Raise] constructor of [py]. *)

From Stdlib Require Import ZArith Ascii String List Lia Bool.
From Stdlib Require Import Floats.SpecFloat.
From Stdlib Require Import Numbers.DecimalString Numbers.DecimalZ.
From stdpp Require Import base gmap strings.
Import ListNotations.

Set Warnings "-register-all".

Local Open Scope string_scope.
Local Open Scope Z_scope.

(** ** Python results *)

Inductive exn : Type :=
| ValueError
| TypeError
| AttributeError
| CancelledError
| OverflowError.

Inductive py (A : Type) : Type :=
| Return (a : A)
| Raise (e : exn).
Arguments Return {A} a.
Arguments Raise {A} e.

Definition py_bind {A B} (m : py A) (k : A -> py B) : py B :=
  match m with
  | Return a => k a
  | Raise e => Raise e
  end.

(** ** The string methods the sources call *)

Module Str.

Definition code (c : ascii) : nat := nat_of_ascii c.

(** [str.isspace] on code points below 128. *)
Definition is_space (c : ascii) : bool :=
  let n := code c in
  ((9 <=? n) && (n <=? 13) || (28 <=? n) && (n <=? 32))%nat.

Definition is_digit (c : ascii) : bool :=
  let n := code c in ((48 <=? n) && (n <=? 57))%nat.

Definition lower_char (c : ascii) : ascii :=
  let n := code c in
  if ((65 <=? n) && (n <=? 90))%nat then ascii_of_nat (n + 32) else c.

(** [s.lower()] *)
Fixpoint lower (s : string) : string :=
  match s with
  | EmptyString => EmptyString
  | String c r => String (lower_char c) (lower r)
  end.

Fixpoint lstrip (s : string) : string :=
  match s with
  | EmptyString => EmptyString
  | String c r => if is_space c then lstrip r else s
  end.

(** [s.rstrip()] *)
Fixpoint rstrip (s : string) : string :=
  match s with
  | EmptyString => EmptyString
  | String c r =>
      match rstrip r with
      | EmptyString => if is_space c then EmptyString else String c EmptyString
      | r' => String c r'
      end
  end.

(** [s.strip()] *)
Definition strip (s : string) : string := rstrip (lstrip s).

(** [s.startswith(p)] *)
Definition startswith (p s : string) : bool := String.prefix p s.

(** [s.endswith(suf)] *)
Fixpoint endswith (suf s : string) : bool :=
  String.eqb s suf ||
  match s with
  | EmptyString => false
  | String _ r => endswith suf r
  end.

(** [s[:-1]] *)
Fixpoint drop_last (s : string) : string :=
  match s with
  | EmptyString => EmptyString
  | String c EmptyString => EmptyString
  | String c r => String c (drop_last r)
  end.

(** [sub in s] *)
Fixpoint contains (sub s : string) : bool :=
  String.prefix sub s ||
  match s with
  | EmptyString => false
  | String _ r => contains sub r
  end.

(** [s.split(sep, maxsplit)] for a one-character separator. *)
Fixpoint split_on (sep : ascii) (maxsplit : nat) (s : string) : list string :=
  match s with
  | EmptyString => [EmptyString]
  | String c r =>
      if Ascii.eqb c sep then
        match maxsplit with
        | O => [s]
        | S m => EmptyString :: split_on sep m r
        end
      else
        match split_on sep maxsplit r with
        | h :: t => String c h :: t
        | [] => [String c EmptyString]
        end
  end.

(** [s.split(sep)] with no bound on the number of cuts. *)
Definition split_all (sep : ascii) (s : string) : list string :=
  split_on sep (String.length s) s.

(** [s.split(sep)] for a separator of several characters; [skip] counts
    the characters of a matched separator still to be dropped. *)
Fixpoint split_sub (sep : string) (skip : nat) (s : string) : list string :=
  match skip, s with
  | S k, String _ r => split_sub sep k r
  | S _, EmptyString => [EmptyString]
  | O, EmptyString => [EmptyString]
  | O, String c r =>
      if String.prefix sep s then
        EmptyString :: split_sub sep (String.length sep - 1) r
      else
        match split_sub sep O r with
        | h :: t => String c h :: t
        | [] => [String c EmptyString]
        end
  end.

Definition starts_word (s : string) : bool :=
  match s with
  | EmptyString => false
  | String c _ => negb (is_space c)
  end.

(** [s.split()]: the maximal runs of non-whitespace characters. *)
Fixpoint split_ws (s : string) : list string :=
  match s with
  | EmptyString => []
  | String c r =>
      if is_space c then split_ws r
      else if starts_word r then
        match split_ws r with
        | h :: t => String c h :: t
        | [] => [String c EmptyString]
        end
      else String c EmptyString :: split_ws r
  end.

(** [sep.join(parts)] *)
Definition join (sep : string) (parts : list string) : string :=
  String.concat sep parts.

(** Digits of a base-10 literal: groups of digits separated by single
    underscores, as accepted by [int(s)]. *)
Fixpoint valid_digits (after_digit : bool) (s : string) : bool :=
  match s with
  | EmptyString => after_digit
  | String c r =>
      if is_digit c then valid_digits true r
      else if Ascii.eqb c "_" then after_digit && valid_digits false r
      else false
  end.

Fixpoint drop_underscores (s : string) : string :=
  match s with
  | EmptyString => EmptyString
  | String c r =>
      if Ascii.eqb c "_" then drop_underscores r
      else String c (drop_underscores r)
  end.

Definition int_unsigned (s : string) : option Z :=
  if valid_digits false s then
    match NilEmpty.uint_of_string (drop_underscores s) with
    | Some d => Some (Z.of_uint d)
    | None => None
    end
  else None.

(** The whitespace [int] skips around a literal: space, tab, line feed,
    vertical tab, form feed and carriage return.  The separators 28 to 31,
    which [strip] removes, are not among them. *)
Definition is_blank (c : ascii) : bool :=
  let n := code c in ((9 <=? n) && (n <=? 13) || (n =? 32))%nat.

Fixpoint skip_leading (p : ascii -> bool) (s : string) : string :=
  match s with
  | EmptyString => EmptyString
  | String c r => if p c then skip_leading p r else s
  end.

Fixpoint skip_trailing (p : ascii -> bool) (s : string) : string :=
  match s with
  | EmptyString => EmptyString
  | String c r =>
      match skip_trailing p r with
      | EmptyString => if p c then EmptyString else String c EmptyString
      | r' => String c r'
      end
  end.

(** [int(s)]: surrounding blanks, an optional sign, then digits; [None]
    stands for the [ValueError] Python raises. *)
Definition int (s : string) : option Z :=
  match skip_trailing is_blank (skip_leading is_blank s) with
  | EmptyString => None
  | String c r =>
      if Ascii.eqb c "-" then option_map Z.opp (int_unsigned r)
      else if Ascii.eqb c "+" then int_unsigned r
      else int_unsigned (String c r)
  end.

(** [str(n)] and the [{n}] of an f-string, for an integer. *)
Definition of_int (n : Z) : string := NilZero.string_of_int (Z.to_int n).

(** Every character of [s] satisfies [p]. *)
Fixpoint all_chars (p : ascii -> bool) (s : string) : bool :=
  match s with
  | EmptyString => true
  | String c r => p c && all_chars p r
  end.

(** The characters [of_int] produces. *)
Definition numeral_char (c : ascii) : bool := is_digit c || Ascii.eqb c "-".

(** The characters [lower] and [strip] leave alone. *)
Definition plain (c : ascii) : bool :=
  negb (is_space c) && Ascii.eqb (lower_char c) c.

End Str.

(** ** [worker/docker_executor.py] *)

Module DockerExecutor.

Definition int_or_raise (s : string) : py Z :=
  match Str.int s with
  | Some n => Return n
  | None => Raise ValueError
  end.

Definition _convert_memory_limit (memory_limit : string) : py Z :=
  let memory_limit := Str.strip (Str.lower memory_limit) in
  if Str.endswith "k" memory_limit then
    py_bind (int_or_raise (Str.drop_last memory_limit))
            (fun n => Return (n * 1024))
  else if Str.endswith "m" memory_limit then
    py_bind (int_or_raise (Str.drop_last memory_limit))
            (fun n => Return (n * 1024 * 1024))
  else if Str.endswith "g" memory_limit then
    py_bind (int_or_raise (Str.drop_last memory_limit))
            (fun n => Return (n * 1024 * 1024 * 1024))
  else int_or_raise memory_limit.

End DockerExecutor.

(** ** Loaded YAML values

    The value [yaml.safe_load] returns: scalars, sequences and mappings.
    Mapping keys are strings, as in every manifest of the documented format;
    a mapping keeps the order of its keys.  Dates, binary data and sets are
    not represented. *)

Inductive yvalue : Type :=
| YNone
| YBool (b : bool)
| YInt (n : Z)
| YStr (s : string)
| YList (items : list yvalue)
| YDict (entries : list (string * yvalue))
| YFloat (f : spec_float).

(** Python truthiness: [if v:] *)
Definition truthy (v : yvalue) : bool :=
  match v with
  | YNone => false
  | YBool b => b
  | YInt n => negb (n =? 0)
  | YStr s => negb (String.eqb s EmptyString)
  | YList l => match l with [] => false | _ => true end
  | YDict d => match d with [] => false | _ => true end
  | YFloat f => match f with S754_zero _ => false | _ => true end
  end.

(** [v == "text"] *)
Definition eq_str (v : yvalue) (s : string) : bool :=
  match v with
  | YStr t => String.eqb t s
  | _ => false
  end.

(** [d.get(key)] on the entries of a mapping. *)
Fixpoint dict_get (key : string) (d : list (string * yvalue)) : option yvalue :=
  match d with
  | [] => None
  | (k, v) :: rest => if String.eqb k key then Some v else dict_get key rest
  end.

(** [key in d] *)
Definition has_key (key : string) (d : list (string * yvalue)) : bool :=
  match dict_get key d with
  | Some _ => true
  | None => false
  end.

(** [d.get(key, dflt)] *)
Definition get_default (key : string) (dflt : yvalue)
    (d : list (string * yvalue)) : yvalue :=
  match dict_get key d with
  | Some v => v
  | None => dflt
  end.

(** [v.get(key, dflt)] on an arbitrary value: only mappings have [get]. *)
Definition value_get (key : string) (dflt : yvalue) (v : yvalue) : py yvalue :=
  match v with
  | YDict d => Return (get_default key dflt d)
  | _ => Raise AttributeError
  end.

(** Lists and mappings cannot be used as dictionary keys. *)
Definition hashable (v : yvalue) : bool :=
  match v with
  | YList _ | YDict _ => false
  | _ => true
  end.

(** ** [shared/yaml_parser.py] *)

Record PipelineConfig : Type := {
  name : yvalue;
  jobs : list (string * yvalue)
}.

(** [PipelineConfig.get_job]: [self.jobs.get(job_name)]. *)
Definition get_job (pc : PipelineConfig) (job_name : yvalue) : py (option yvalue) :=
  match job_name with
  | YStr s => Return (dict_get s (jobs pc))
  | YList _ | YDict _ => Raise TypeError
  | _ => Return None
  end.

Definition list_jobs (pc : PipelineConfig) : list string := map fst (jobs pc).

Module YAMLParser.

Definition step_has_image (step : yvalue) : bool :=
  match step with
  | YDict d => has_key "image" d
  | _ => false
  end.

(** The final loop of the default branch: every step is a mapping with a
    [run] key. *)
Fixpoint check_steps (steps : list yvalue) : py unit :=
  match steps with
  | [] => Return tt
  | YDict d :: rest =>
      if has_key "run" d then check_steps rest else Raise ValueError
  | _ :: _ => Raise ValueError
  end.

(** [job_config.get("type", "default")] *)
Definition job_type (jc : list (string * yvalue)) : yvalue :=
  get_default "type" (YStr "default") jc.

(** The jobs the last branch of the validation handles: every type other
    than [timer], [confirmation] and [job_group]. *)
Definition container_kind (jc : list (string * yvalue)) : bool :=
  negb (eq_str (job_type jc) "timer") &&
  negb (eq_str (job_type jc) "confirmation") &&
  negb (eq_str (job_type jc) "job_group").

(** The body of the loop over [jobs.items()]. *)
Definition check_job (job_config : yvalue) : py unit :=
  match job_config with
  | YDict jc =>
      let job_type := job_type jc in
      if eq_str job_type "timer" then
        if has_key "duration" jc then Return tt else Raise ValueError
      else if eq_str job_type "confirmation" then
        if has_key "message" jc then Return tt else Raise ValueError
      else if eq_str job_type "job_group" then
        if has_key "jobs" jc || has_key "job_groups" jc
        then Return tt else Raise ValueError
      else
        match dict_get "steps" jc with
        | None => Raise ValueError
        | Some (YList steps) =>
            if has_key "image" jc || existsb step_has_image steps
            then check_steps steps
            else Raise ValueError
        | Some _ => Raise ValueError
        end
  | _ => Raise ValueError
  end.

Fixpoint check_jobs (items : list (string * yvalue)) : py unit :=
  match items with
  | [] => Return tt
  | (_, job_config) :: rest =>
      py_bind (check_job job_config) (fun _ => check_jobs rest)
  end.

(** [YAMLParser.parse], applied to what [yaml.safe_load] produced
    ([Raise] when the text is not YAML). *)
Definition parse (loaded : py yvalue) : py PipelineConfig :=
  match loaded with
  | Raise _ => Raise ValueError
  | Return (YDict config) =>
      match dict_get "name" config with
      | None => Raise ValueError
      | Some nm =>
          match dict_get "jobs" config with
          | None => Raise ValueError
          | Some (YDict js) =>
              py_bind (check_jobs js)
                      (fun _ => Return {| name := nm; jobs := js |})
          | Some _ => Raise ValueError
          end
      end
  | Return _ => Raise ValueError
  end.

Record step_info : Type := {
  si_name : yvalue;
  si_image : yvalue;
  si_run : yvalue;
  si_env : yvalue
}.

(** [YAMLParser.extract_step_info(step, job_image)]; [job_image] is
    [YNone] when the job has no image. *)
Definition extract_step_info (step : yvalue) (job_image : yvalue) : py step_info :=
  match step with
  | YDict d =>
      let step_name := get_default "name" (YStr "unnamed") d in
      let step_image := get_default "image" job_image d in
      let run_command := get_default "run" (YStr EmptyString) d in
      let env_vars := get_default "env" (YDict []) d in
      if negb (truthy step_image) then Raise ValueError
      else Return {| si_name := step_name;
                     si_image := step_image;
                     si_run := run_command;
                     si_env := match env_vars with
                               | YDict _ => env_vars
                               | _ => YDict []
                               end |}
  | _ => Raise AttributeError
  end.

End YAMLParser.

(** ** [shared/logger.py] *)

Module Logger.

(** One call of [_format_log_line]: its arguments and the clock reading. *)
Record log_entry : Type := {
  timestamp : string;
  job_id : Z;
  step_name : string;
  log_type : string;
  content : string;
  exit_code : option Z
}.

Definition _format_log_line (e : log_entry) : string :=
  let line :=
    "[" +:+ timestamp e +:+ "] JOB:" +:+ Str.of_int (job_id e) +:+
    " STEP:" +:+ step_name e +:+ " " +:+ log_type e +:+ ":" +:+ content e in
  match exit_code e with
  | Some c => line +:+ " EXIT:" +:+ Str.of_int c
  | None => line
  end.

Definition newline : string := String (ascii_of_nat 10) EmptyString.

(** The text of the file after [_write_line] ran on every entry. *)
Fixpoint file_text (entries : list log_entry) : string :=
  match entries with
  | [] => EmptyString
  | e :: rest => _format_log_line e +:+ newline +:+ file_text rest
  end.

(** [async for line in f] on a text file: the lines, each with its
    terminator, which universal-newline mode reads as a line feed. *)
Fixpoint readlines (text : string) : list string :=
  match text with
  | EmptyString => []
  | String c r =>
      if (Str.code c =? 10)%nat then newline :: readlines r
      else if (Str.code c =? 13)%nat then
        match r with
        | String c' r' =>
            if (Str.code c' =? 10)%nat then newline :: readlines r'
            else newline :: readlines r
        | EmptyString => [newline]
        end
      else
        match readlines r with
        | h :: t => String c h :: t
        | [] => [String c EmptyString]
        end
  end.

(** The entries that carry an [EXIT] suffix: the step completions. *)
Definition completion_entries (entries : list log_entry) : list log_entry :=
  List.filter (fun e => match exit_code e with Some _ => true | None => false end)
              entries.

Definition job_tag (job_id : Z) : string := "JOB:" +:+ Str.of_int job_id.

(** [Logger.get_job_logs]; the file is [None] when it does not exist. *)
Definition get_job_logs (log_file : option string) (job_id : Z) : string :=
  match log_file with
  | None => EmptyString
  | Some text =>
      let lines :=
        map Str.rstrip
            (List.filter (fun line => Str.contains (job_tag job_id) line)
                    (readlines text)) in
      Str.join newline lines
  end.

(** One iteration of the loop of [get_job_status]. *)
Definition status_step (job_id : Z) (last_status : option string)
    (line : string) : option string :=
  if Str.contains (job_tag job_id) line && Str.contains "STATUS:" line then
    match Str.split_sub "STATUS:" O line with
    | _ :: part :: _ =>
        match Str.split_ws part with
        | status_part :: _ =>
            if negb (String.eqb status_part EmptyString) then Some status_part
            else last_status
        | [] => last_status
        end
    | _ => last_status
    end
  else last_status.

(** [Logger.get_job_status] *)
Definition get_job_status (log_file : option string) (job_id : Z) : option string :=
  match log_file with
  | None => None
  | Some text => fold_left (status_step job_id) (readlines text) None
  end.

End Logger.

(** [for x in v]: the items of a sequence, the characters of a string, the
    keys of a mapping; other values are not iterable. *)
Definition iter_items (v : yvalue) : py (list yvalue) :=
  match v with
  | YList l => Return l
  | YDict d => Return (map (fun kv => YStr (fst kv)) d)
  | YStr s => Return (map (fun c => YStr (String c EmptyString)) (list_ascii_of_string s))
  | _ => Raise TypeError
  end.

(** [int(x)] on a float: the value cut towards zero; an infinity is an
    [OverflowError] and a NaN a [ValueError]. *)
Definition int_of_float (f : spec_float) : py Z :=
  match f with
  | S754_zero _ => Return 0
  | S754_infinity _ => Raise OverflowError
  | S754_nan => Raise ValueError
  | S754_finite s m e =>
      let magnitude := Z.shiftl (Z.pos m) e in
      Return (if s then - magnitude else magnitude)
  end.

(** [int(v)] on a loaded value. *)
Definition int_of_value (v : yvalue) : py Z :=
  match v with
  | YInt n => Return n
  | YBool b => Return (if b then 1 else 0)
  | YStr s => match Str.int s with Some n => Return n | None => Raise ValueError end
  | YFloat f => int_of_float f
  | YNone | YList _ | YDict _ => Raise TypeError
  end.

(** ** The sequential runtime: [worker/job_processor.py]

    The container runtime, the clock and the event loop's timer are the
    environment of the program.  They are operations on an abstract [world];
    the code below threads the world and the log through every call, in
    program order. *)

Module JobProcessor.
Import Logger YAMLParser.

Section Runtime.

Context {world : Type}.

(** [datetime.now().strftime("%Y-%m-%d %H:%M:%S")] *)
Variable now : world -> string * world.
(** [DockerExecutor.pull_image]: it catches every error and answers a bool. *)
Variable pull_image : yvalue -> world -> bool * world.
(** [DockerExecutor.execute_step image command env_vars step_name] *)
Variable execute_step :
  yvalue -> yvalue -> yvalue -> yvalue -> world -> (Z * string) * world.
(** [asyncio.sleep] *)
Variable sleep : Z -> world -> world.
(** The text an f-string gives for a loaded value. *)
Variable format : yvalue -> string.

Record state : Type := {
  st_world : world;
  st_log : list log_entry
}.

Definition M (A : Type) : Type := state -> py A * state.

Definition ret {A} (a : A) : M A := fun s => (Return a, s).

Definition bind {A B} (m : M A) (k : A -> M B) : M B :=
  fun s =>
    match m s with
    | (Return a, s') => k a s'
    | (Raise e, s') => (Raise e, s')
    end.

Definition lift {A} (r : py A) : M A := fun s => (r, s).

(** How many step completions the log holds. *)
Definition completions (s : state) : Z :=
  Z.of_nat (length (completion_entries (st_log s))).

Notation "x <- m ;; k" := (bind m (fun x => k))
  (at level 100, m at next level, right associativity).
Notation "m ;;; k" := (bind m (fun _ => k))
  (at level 100, right associativity).

(** [Logger._write_line] after [Logger._format_log_line]: the entry is
    stamped with the clock and appended to the file. *)
Definition write_entry (job_id : Z) (step_name log_type content : string)
    (exit_code : option Z) : M unit :=
  fun s =>
    let (ts, w) := now (st_world s) in
    (Return tt,
     {| st_world := w;
        st_log := st_log s ++
                  [ {| timestamp := ts; job_id := job_id; step_name := step_name;
                       log_type := log_type; content := content;
                       exit_code := exit_code |} ] |}).

Definition log_status (job_id : Z) (step_name status : string) : M unit :=
  write_entry job_id step_name "STATUS" status None.

Definition log_error (job_id : Z) (step_name error : string) : M unit :=
  write_entry job_id step_name "ERROR" error None.

Fixpoint log_lines (job_id : Z) (step_name : string) (lines : list string) : M unit :=
  match lines with
  | [] => ret tt
  | line_content :: rest =>
      if negb (String.eqb (Str.strip line_content) EmptyString) then
        write_entry job_id step_name "LOG" line_content None ;;;
        log_lines job_id step_name rest
      else log_lines job_id step_name rest
  end.

Definition log_output (job_id : Z) (step_name content : string) : M unit :=
  log_lines job_id step_name (Str.split_all (ascii_of_nat 10) content).

Definition log_step_completion (job_id : Z) (step_name : string) (exit_code : Z) : M unit :=
  let status := if exit_code =? 0 then "success" else "failed" in
  write_entry job_id step_name "STATUS" status (Some exit_code).

Definition pull_image_m (image : yvalue) : M bool :=
  fun s =>
    let (ok, w) := pull_image image (st_world s) in
    (Return ok, {| st_world := w; st_log := st_log s |}).

Definition execute_step_m (image command env_vars step_name : yvalue) : M (Z * string) :=
  fun s =>
    let (r, w) := execute_step image command env_vars step_name (st_world s) in
    (Return r, {| st_world := w; st_log := st_log s |}).

Definition sleep_m (seconds : Z) : M unit :=
  fun s => (Return tt, {| st_world := sleep seconds (st_world s); st_log := st_log s |}).

(** [TimerJobExecutor.execute]; its handler is for [ValueError] and
    [TypeError], any other exception of [int] leaves the executor. *)
Definition timer_execute (job_id : Z) (job_name : yvalue)
    (job_config : list (string * yvalue)) : M yvalue :=
  let duration := get_default "duration" (YInt 0) job_config in
  match int_of_value duration with
  | Raise ValueError | Raise TypeError =>
      log_error job_id (format job_name)
                ("Неверное значение duration: " +:+ format duration) ;;;
      ret (YDict [("status", YStr "failed");
                  ("error", YStr "Неверное значение duration")])
  | Raise e => lift (Raise e)
  | Return duration_seconds =>
      log_status job_id (format job_name) "running" ;;;
      log_output job_id (format job_name)
                 ("Ожидание " +:+ Str.of_int duration_seconds +:+ " секунд...") ;;;
      sleep_m duration_seconds ;;;
      log_status job_id (format job_name) "success" ;;;
      ret (YDict [("status", YStr "success")])
  end.

(** The counters of the step loop: [steps_completed], [steps_failed],
    [job_status]. *)
Record counters : Type := {
  steps_completed : Z;
  steps_failed : Z;
  job_status : string
}.

(** The loop [for step in steps] of [process_job]: the first branch ends in
    [continue], the last one in [break]. *)
Fixpoint run_steps (job_id : Z) (job_image : yvalue) (steps : list yvalue)
    (acc : counters) : M counters :=
  match steps with
  | [] => ret acc
  | step :: rest =>
      step_info <- lift (extract_step_info step job_image) ;;
      let step_name := si_name step_info in
      let step_image := si_image step_info in
      log_status job_id (format step_name) "running" ;;;
      image_available <- pull_image_m step_image ;;
      if negb image_available then
        log_error job_id (format step_name)
                  ("Не удалось получить Docker образ: " +:+ format step_image) ;;;
        run_steps job_id job_image rest
                  {| steps_completed := steps_completed acc;
                     steps_failed := steps_failed acc + 1;
                     job_status := "failed" |}
      else
        r <- execute_step_m step_image (si_run step_info) (si_env step_info) step_name ;;
        let exit_code := fst r in
        let logs := snd r in
        (if negb (String.eqb logs EmptyString)
         then log_output job_id (format step_name) logs else ret tt) ;;;
        log_step_completion job_id (format step_name) exit_code ;;;
        if exit_code =? 0 then
          run_steps job_id job_image rest
                    {| steps_completed := steps_completed acc + 1;
                       steps_failed := steps_failed acc;
                       job_status := job_status acc |}
        else
          log_error job_id (format step_name)
                    ("Шаг завершился с ошибкой (exit code: " +:+
                     Str.of_int exit_code +:+ ")") ;;;
          ret {| steps_completed := steps_completed acc;
                 steps_failed := steps_failed acc + 1;
                 job_status := "failed" |}
  end.

(** The executors [process_job] hands the other job kinds to.  The
    confirmation executor exists only when a bot was given. *)
Variable confirmation_execute :
  option (Z -> yvalue -> list (string * yvalue) -> yvalue -> yvalue -> M yvalue).
Variable group_execute :
  Z -> yvalue -> list (string * yvalue) -> PipelineConfig -> M yvalue.

(** [JobProcessor.process_job] *)
Definition process_job (job_id : Z) (pipeline_config : PipelineConfig)
    (job_name : yvalue) (chat_id message_id : yvalue) : M yvalue :=
  found <- lift (get_job pipeline_config job_name) ;;
  let not_found :=
    log_error job_id "orchestrator"
              ("Job '" +:+ format job_name +:+ "' не найден в конфигурации") ;;;
    ret (YDict [("status", YStr "failed"); ("steps_completed", YInt 0);
                ("steps_failed", YInt 0);
                ("error", YStr ("Job '" +:+ format job_name +:+ "' не найден"))]) in
  match found with
  | None => not_found
  | Some job_config =>
  if negb (truthy job_config) then not_found else
  match job_config with
  | YDict job_config =>
      let job_type := get_default "type" (YStr "default") job_config in
      if eq_str job_type "timer" then timer_execute job_id job_name job_config
      else if eq_str job_type "confirmation" then
        match confirmation_execute with
        | None =>
            log_error job_id (format job_name)
                      "Confirmation job требует bot instance" ;;;
            ret (YDict [("status", YStr "failed");
                        ("error", YStr "Bot не инициализирован")])
        | Some execute => execute job_id job_name job_config chat_id message_id
        end
      else if eq_str job_type "job_group" then
        group_execute job_id job_name job_config pipeline_config
      else
        let job_image := get_default "image" YNone job_config in
        let steps := get_default "steps" (YList []) job_config in
        if negb (truthy steps) then
          log_error job_id "orchestrator"
                    ("Job '" +:+ format job_name +:+ "' не содержит steps") ;;;
          ret (YDict [("status", YStr "failed"); ("steps_completed", YInt 0);
                      ("steps_failed", YInt 0);
                      ("error", YStr "Job не содержит steps")])
        else
          log_status job_id (format job_name) "running" ;;;
          items <- lift (iter_items steps) ;;
          c <- run_steps job_id job_image items
                 {| steps_completed := 0; steps_failed := 0;
                    job_status := "success" |} ;;
          log_status job_id (format job_name) (job_status c) ;;;
          ret (YDict [("status", YStr (job_status c));
                      ("steps_completed", YInt (steps_completed c));
                      ("steps_failed", YInt (steps_failed c))])
  | _ => lift (Raise AttributeError)
  end
  end.

End Runtime.
End JobProcessor.

(** ** [worker/job_executors.py]: confirmation callbacks *)

Module ConfirmationJobExecutor.

(** An entry of [pending_confirmations].  The [asyncio.Event] is its flag. *)
Record registration : Type := {
  reg_job_id : Z;
  reg_job_name : string;
  reg_chat_id : Z;
  reg_message_id : Z;
  confirmed : option bool;
  event_set : bool
}.

Definition resolve (decision : bool) (r : registration) : registration :=
  {| reg_job_id := reg_job_id r;
     reg_job_name := reg_job_name r;
     reg_chat_id := reg_chat_id r;
     reg_message_id := reg_message_id r;
     confirmed := Some decision;
     event_set := true |}.

(** [f"{job_id}_{job_name}"] *)
Definition confirmation_key (job_id : Z) (job_name : string) : string :=
  Str.of_int job_id +:+ "_" +:+ job_name.

(** [f"confirm_{job_id}_{job_name}"] and [f"cancel_{job_id}_{job_name}"],
    the data of the two buttons [execute] attaches to its message. *)
Definition callback_data_of (action : string) (job_id : Z) (job_name : string) : string :=
  action +:+ "_" +:+ Str.of_int job_id +:+ "_" +:+ job_name.

(** The body of either branch of [handle_callback]: the two differ in the
    action they report and the decision they store. *)
Definition route (action : string) (decision : bool) (callback_data : string)
    (pending : gmap string registration)
    : py (option yvalue) * gmap string registration :=
  match Str.split_on "_" 2 callback_data with
  | [_; part1; part2] =>
      match Str.int part1 with
      | None => (Raise ValueError, pending)
      | Some job_id =>
          let job_name := part2 in
          let key := confirmation_key job_id job_name in
          match pending !! key with
          | Some r =>
              (Return (Some (YDict [("action", YStr action);
                                    ("job_id", YInt job_id);
                                    ("job_name", YStr job_name)])),
               <[key := resolve decision r]> pending)
          | None => (Return None, pending)
          end
      end
  | _ => (Return None, pending)
  end.

(** [ConfirmationJobExecutor.handle_callback]: the answer and the table
    afterwards.  [user_id] is not looked at. *)
Definition handle_callback (callback_data : string) (user_id : Z)
    (pending : gmap string registration)
    : py (option yvalue) * gmap string registration :=
  if Str.startswith "confirm_" callback_data then
    route "confirm" true callback_data pending
  else if Str.startswith "cancel_" callback_data then
    route "cancel" false callback_data pending
  else (Return None, pending).

End ConfirmationJobExecutor.

(** ** [worker/job_executors.py]: job groups

    A child task is represented by how it ends: the dictionary it returns or
    the exception it raises, and the instant at which it settles when nobody
    cancels it, counted from the start of the group.  The position of a task
    in the run is the list of the indices of the enclosing groups' tasks,
    then its own index in [all_tasks].  The three log writes of [execute] do
    not influence what it returns and are not represented. *)

Module JobGroupExecutor.

Record child_run : Type := {
  outcome : py yvalue;
  settles_at : nat
}.

(** An element of [all_tasks]. *)
Record task : Type := {
  task_run : child_run;
  is_necessary : yvalue;
  task_name : yvalue
}.

(** What a call of [execute] amounts to: the value returned or the
    exception raised, the instant of the return, and the names of the tasks
    on which [cancel()] was called. *)
Record group_run : Type := {
  result : py yvalue;
  returns_at : nat;
  cancel_requests : list yvalue
}.

(** The head of both construction loops: a string is a name that is not
    necessary, a mapping carries [name] and [is_necessary], anything else is
    passed over. *)
Definition entry_of (item : yvalue) : option (yvalue * yvalue) :=
  match item with
  | YStr _ => Some (item, YBool false)
  | YDict d => Some (get_default "name" YNone d,
                     get_default "is_necessary" (YBool false) d)
  | _ => None
  end.

(** [group_config and group_config.get("type") == "job_group"] *)
Definition group_config_of (found : option yvalue) : py (option (list (string * yvalue))) :=
  match found with
  | None => Return None
  | Some v =>
      if negb (truthy v) then Return None
      else match v with
           | YDict d =>
               if eq_str (get_default "type" YNone d) "job_group"
               then Return (Some d) else Return None
           | _ => Raise AttributeError
           end
  end.

(** The loop over [job_groups]: a task is created only for a name that
    resolves to a job of type [job_group]. *)
Fixpoint plan_groups (pipeline_config : PipelineConfig) (items : list yvalue)
    : py (list (yvalue * yvalue * list (string * yvalue))) :=
  match items with
  | [] => Return []
  | item :: rest =>
      match entry_of item with
      | None => plan_groups pipeline_config rest
      | Some (group_name, necessary) =>
          py_bind (get_job pipeline_config group_name) (fun found =>
          py_bind (group_config_of found) (fun cfg =>
          match cfg with
          | None => plan_groups pipeline_config rest
          | Some group_config =>
              py_bind (plan_groups pipeline_config rest)
                      (fun l => Return ((group_name, necessary, group_config) :: l))
          end))
      end
  end.

(** [asyncio.wait(tasks, return_when=ALL_COMPLETED)] without a timeout:
    [ValueError] on an empty collection; otherwise it returns once every
    task has settled, with all of them in [done] and nothing in [pending]. *)
Definition asyncio_wait_all (tasks : list task) : py (list task * list task) :=
  match tasks with
  | [] => Raise ValueError
  | _ => Return (tasks, [])
  end.

Definition latest (tasks : list task) : nat :=
  fold_right (fun t m => Nat.max (settles_at (task_run t)) m) O tasks.

Record tally : Type := {
  completed : Z;
  failed : Z;
  status : string;
  cancelled : list yvalue
}.

Definition count_success (acc : tally) : tally :=
  {| completed := completed acc + 1; failed := failed acc;
     status := status acc; cancelled := cancelled acc |}.

(** [failed += 1], and for a necessary task [status = "failed"]; [cancel]
    tells whether the branch goes on to cancel the pending tasks. *)
Definition count_failure (cancel : bool) (pending : list task) (necessary : yvalue)
    (acc : tally) : tally :=
  {| completed := completed acc;
     failed := failed acc + 1;
     status := if truthy necessary then "failed" else status acc;
     cancelled := if truthy necessary && cancel
                  then cancelled acc ++ map task_name pending
                  else cancelled acc |}.

(** The body of [for task in done]. *)
Definition settle (pending : list task) (acc : tally) (t : task) : tally :=
  match outcome (task_run t) with
  | Return r =>
      match value_get "status" YNone r with
      | Return st =>
          if eq_str st "success" then count_success acc
          else count_failure true pending (is_necessary t) acc
      | Raise _ => count_failure true pending (is_necessary t) acc
      end
  | Raise CancelledError => count_failure false pending (is_necessary t) acc
  | Raise _ => count_failure true pending (is_necessary t) acc
  end.

Definition start : tally :=
  {| completed := 0; failed := 0; status := "success"; cancelled := [] |}.

(** From [asyncio.wait] to the [return] of [execute]. *)
Definition finish (tasks : list task) : group_run :=
  match asyncio_wait_all tasks with
  | Raise e => {| result := Raise e; returns_at := O; cancel_requests := [] |}
  | Return (done, pending) =>
      let acc := fold_left (settle pending) done start in
      {| result := Return (YDict [("status", YStr (status acc));
                                  ("completed", YInt (completed acc));
                                  ("failed", YInt (failed acc))]);
         returns_at := latest done;
         cancel_requests := cancelled acc |}
  end.

Definition raised (e : exn) : group_run :=
  {| result := Raise e; returns_at := O; cancel_requests := [] |}.

(** A child succeeded when it returned a dictionary whose [status] is
    ["success"]; it failed when it returned anything else, raised an
    exception or was cancelled. *)
Definition succeeded (t : task) : bool :=
  match outcome (task_run t) with
  | Return r =>
      match value_get "status" YNone r with
      | Return st => eq_str st "success"
      | Raise _ => false
      end
  | Raise _ => false
  end.

(** The same task, had it returned [{"status": "failed"}] where it raised
    an exception or was cancelled. *)
Definition as_returned_failure (t : task) : task :=
  match outcome (task_run t) with
  | Return _ => t
  | Raise _ =>
      {| task_run := {| outcome := Return (YDict [("status", YStr "failed")]);
                        settles_at := settles_at (task_run t) |};
         is_necessary := is_necessary t;
         task_name := task_name t |}
  end.

Definition necessary_failure (t : task) : bool :=
  truthy (is_necessary t) && negb (succeeded t).

(** What the loop over [done] leaves in the counters when nothing is
    pending: the successes, the failures, and whether a necessary child is
    among the failures. *)
Definition tally_of (acc : tally) (tasks : list task) : tally :=
  {| completed := completed acc + Z.of_nat (length (List.filter succeeded tasks));
     failed := failed acc + Z.of_nat (length (List.filter (fun t => negb (succeeded t)) tasks));
     status := if existsb necessary_failure tasks then "failed" else status acc;
     cancelled := cancelled acc |}.

(** An entry of [job_groups] whose name resolves to no job of type
    [job_group]: no job of that name, or a job of another type. *)
Definition dangling (pipeline_config : PipelineConfig) (item : yvalue) : bool :=
  match entry_of item with
  | Some (group_name, _) =>
      match get_job pipeline_config group_name with
      | Return None => true
      | Return (Some (YDict d)) =>
          negb (eq_str (get_default "type" YNone d) "job_group")
      | _ => false
      end
  | None => false
  end.

(** The keywords of the call that gives the coroutine of a job:
    [process_job_func(job_id=..., pipeline_config=..., job_name=...,
    telegram_user_id=...)]. *)
Definition call_keywords : list string :=
  ["job_id"; "pipeline_config"; "job_name"; "telegram_user_id"].

Section Group.

(** [process_job_func], a callable.  Given the keywords of the call, the
    position of the task to be and the name of the job, it raises or it
    returns a coroutine, represented by the run of the task made of it. *)
Variable process_job_func : list string -> list nat -> yvalue -> py child_run.

(** The loop over [jobs].  For each entry the function is called, a task is
    made of the coroutine, and [task_info[name] = ...] needs a hashable
    name; an exception at either point ends [execute]. *)
Fixpoint job_tasks (path : list nat) (created : nat) (items : list yvalue)
    : py (list task) :=
  match items with
  | [] => Return []
  | item :: rest =>
      match entry_of item with
      | None => job_tasks path created rest
      | Some (job_item_name, necessary) =>
          py_bind (process_job_func call_keywords (path ++ [created])%list job_item_name)
            (fun run =>
               if hashable job_item_name then
                 py_bind (job_tasks path (S created) rest)
                   (fun l => Return ({| task_run := run;
                                        is_necessary := necessary;
                                        task_name := job_item_name |} :: l))
               else Raise TypeError)
      end
  end.

(** The tasks of the sub-groups; [run] is the recursive call of [execute],
    which has no result when the recursion does not end. *)
Fixpoint group_tasks (run : list nat -> list (string * yvalue) -> option group_run)
    (path : list nat) (created : nat)
    (planned : list (yvalue * yvalue * list (string * yvalue)))
    : option (list task) :=
  match planned with
  | [] => Some []
  | (group_name, necessary, group_config) :: rest =>
      match run (path ++ [created])%list group_config,
            group_tasks run path (S created) rest with
      | Some g, Some l =>
          Some ({| task_run := {| outcome := result g; settles_at := returns_at g |};
                   is_necessary := necessary;
                   task_name := group_name |} :: l)
      | _, _ => None
      end
  end.

(** [JobGroupExecutor.execute].  [path] locates the group among the tasks
    of the run.  A group may name itself, directly or through other groups,
    and then the recursion has no end: [fuel] bounds the depth of nesting
    and [None] means it was not enough. *)
Fixpoint execute (fuel : nat) (path : list nat) (job_config : list (string * yvalue))
    (pipeline_config : PipelineConfig) : option group_run :=
  match fuel with
  | O => None
  | S fuel' =>
      let jobs := get_default "jobs" (YList []) job_config in
      let job_groups := get_default "job_groups" (YList []) job_config in
      match py_bind (iter_items jobs) (job_tasks path O) with
      | Raise e => Some (raised e)
      | Return tasks =>
          match py_bind (iter_items job_groups) (plan_groups pipeline_config) with
          | Raise e => Some (raised e)
          | Return planned_groups =>
              match group_tasks (fun p cfg => execute fuel' p cfg pipeline_config)
                                path (List.length tasks) planned_groups with
              | None => None
              | Some sub => Some (finish (tasks ++ sub))
              end
          end
      end
  end.

End Group.
End JobGroupExecutor.

(** ** [worker/job_processor.py]: the function handed to the group executor

    [lambda **kwargs: self.process_job(telegram_user_id=telegram_user_id,
    chat_id=chat_id, message_id=message_id, **kwargs)].  A call of the
    lambda is a call of [process_job] with the three keywords the lambda
    writes out and, after them, the keywords it was given. *)

Module ProcessJobFunc.
Import JobGroupExecutor.

(** The parameters of [process_job] after [self]; the last two have a
    default. *)
Definition parameters : list string :=
  ["job_id"; "pipeline_config"; "job_name"; "telegram_user_id"; "chat_id"; "message_id"].

Definition required : list string :=
  ["job_id"; "pipeline_config"; "job_name"; "telegram_user_id"].

(** The keywords the lambda writes out. *)
Definition written : list string := ["telegram_user_id"; "chat_id"; "message_id"].

Definition among (names : list string) (keyword : string) : bool :=
  existsb (String.eqb keyword) names.

(** Whether the call of [process_job] can be made.  A keyword given twice,
    a keyword that names no parameter and a parameter without default left
    out are each a [TypeError]. *)
Definition binds (kwargs : list string) : bool :=
  negb (existsb (among written) kwargs)
  && forallb (among parameters) (written ++ kwargs)%list
  && forallb (among (written ++ kwargs)%list) required.

(** The lambda; [run] is [process_job] on a job of the pipeline, by the
    position of the task and the name of the job. *)
Definition process_job_func (run : list nat -> yvalue -> child_run)
    (kwargs : list string) (path : list nat) (job_name : yvalue) : py child_run :=
  if binds kwargs then Return (run path job_name) else Raise TypeError.

End ProcessJobFunc.

(** ** Scenarios

    A small simulated environment in which the scenarios of the test plan
    can be run: the world holds the seconds slept so far and the commands
    handed to the runner.  The image [ghost] cannot be acquired, the command
    [false] exits with code 1 and every other command with code 0, and only
    strings are ever formatted. *)

Module Scenario.
Import JobProcessor JobGroupExecutor.

Record sim : Type := {
  clock : Z;
  ran : list string
}.

Definition fmt (v : yvalue) : string :=
  match v with
  | YStr s => s
  | _ => EmptyString
  end.

Definition sim_now (w : sim) : string * sim := ("2026-01-01 00:00:00", w).

Definition sim_pull (image : yvalue) (w : sim) : bool * sim :=
  (negb (eq_str image "ghost"), w).

Definition sim_exec (image command env_vars step_name : yvalue) (w : sim)
    : (Z * string) * sim :=
  ((if eq_str command "false" then 1 else 0, EmptyString),
   {| clock := clock w; ran := ran w ++ [fmt command] |}).

Definition sim_sleep (seconds : Z) (w : sim) : sim :=
  {| clock := clock w + Z.max 0 seconds; ran := ran w |}.

Definition no_group (job_id : Z) (job_name : yvalue)
    (job_config : list (string * yvalue)) (pipeline_config : PipelineConfig)
    : @M sim yvalue :=
  ret (YDict [("status", YStr "failed")]).

Definition sim_process_job (job_id : Z) (pipeline_config : PipelineConfig)
    (job_name : yvalue) : @M sim yvalue :=
  process_job sim_now sim_pull sim_exec sim_sleep fmt None no_group
              job_id pipeline_config job_name YNone YNone.

Definition fresh : @state sim := {| st_world := {| clock := 0; ran := [] |}; st_log := [] |}.

(** A job run on its own from a fresh world; it settles when its clock
    stops. *)
Definition job_run (pipeline_config : PipelineConfig) (path : list nat)
    (job_name : yvalue) : child_run :=
  let r := sim_process_job 1 pipeline_config job_name fresh in
  {| outcome := fst r; settles_at := Z.to_nat (clock (st_world (snd r))) |}.

(** The function the processor hands to the group executor. *)
Definition child (pipeline_config : PipelineConfig)
    : list string -> list nat -> yvalue -> py child_run :=
  ProcessJobFunc.process_job_func (job_run pipeline_config).

Definition step (fields : list (string * yvalue)) : yvalue := YDict fields.

(** A job whose first step names an image that cannot be acquired. *)
Definition build_job : yvalue :=
  YDict [("steps", YList [
    step [("name", YStr "fetch"); ("image", YStr "ghost"); ("run", YStr "echo a")];
    step [("name", YStr "test"); ("image", YStr "alpine"); ("run", YStr "echo b")]])].

Definition build_pipeline : PipelineConfig :=
  {| name := YStr "p"; jobs := [("build", build_job)] |}.

(** A job of one step, whose image cannot be acquired. *)
Definition lint_pipeline : PipelineConfig :=
  {| name := YStr "p";
     jobs := [("lint", YDict [("image", YStr "ghost");
                              ("steps", YList [step [("name", YStr "check");
                                                     ("run", YStr "true")]])])] |}.

(** Scenario 5: a long timer that is not necessary beside a necessary job
    that fails at once. *)
Definition deploy_group : list (string * yvalue) :=
  [("type", YStr "job_group");
   ("jobs", YList [YDict [("name", YStr "long_timer"); ("is_necessary", YBool false)];
                   YDict [("name", YStr "failing"); ("is_necessary", YBool true)]])].

Definition deploy_pipeline : PipelineConfig :=
  {| name := YStr "p";
     jobs := [("long_timer", YDict [("type", YStr "timer"); ("duration", YInt 60)]);
              ("failing", YDict [("image", YStr "alpine");
                                 ("steps", YList [step [("run", YStr "false")]])]);
              ("deploy", YDict deploy_group)] |}.

(** Groups whose children are groups.  [bad] names a group that does not
    exist, [loop] names itself, [tolerant] has [bad] for a child that is not
    necessary.  [stalled] is scenario 5 with groups for children: [loop],
    not necessary, beside [bad], necessary.  [release] has a necessary child
    that succeeds beside one that fails and is not necessary. *)
Definition member (group_name : string) (necessary : bool) : yvalue :=
  YDict [("name", YStr group_name); ("is_necessary", YBool necessary)].

Definition bad_group : list (string * yvalue) :=
  [("type", YStr "job_group"); ("job_groups", YList [YStr "ghost"])].

Definition loop_group : list (string * yvalue) :=
  [("type", YStr "job_group"); ("job_groups", YList [YStr "loop"])].

Definition tolerant_group : list (string * yvalue) :=
  [("type", YStr "job_group"); ("job_groups", YList [member "bad" false])].

Definition stalled_group : list (string * yvalue) :=
  [("type", YStr "job_group");
   ("job_groups", YList [member "loop" false; member "bad" true])].

Definition release_group : list (string * yvalue) :=
  [("type", YStr "job_group");
   ("job_groups", YList [member "tolerant" true; member "bad" false])].

Definition groups_pipeline : PipelineConfig :=
  {| name := YStr "p";
     jobs := [("bad", YDict bad_group); ("loop", YDict loop_group);
              ("tolerant", YDict tolerant_group); ("stalled", YDict stalled_group);
              ("release", YDict release_group)] |}.

(** The manifest of these groups. *)
Definition groups_manifest : list (string * yvalue) :=
  [("name", YStr "p"); ("jobs", YDict (jobs groups_pipeline))].

(** The tasks of [release], as [execute] makes them. *)
Definition release_tasks : list task :=
  match group_tasks (fun p cfg => execute (child groups_pipeline) 2 p cfg groups_pipeline)
                    [] O
                    [(YStr "tolerant", YBool true, tolerant_group);
                     (YStr "bad", YBool false, bad_group)] with
  | Some tasks => tasks
  | None => []
  end.

(** A group whose only entry names a group that does not exist. *)
Definition fanout_group : list (string * yvalue) :=
  [("type", YStr "job_group");
   ("job_groups", YList [YDict [("name", YStr "ghost"); ("is_necessary", YBool true)]])].

Definition fanout_pipeline : PipelineConfig :=
  {| name := YStr "p"; jobs := [("fanout", YDict fanout_group)] |}.

(** Two runs of one pipeline written to one log: run 1 succeeds, run 10
    fails. *)
Definition two_jobs : PipelineConfig :=
  {| name := YStr "p";
     jobs := [("good", YDict [("image", YStr "alpine");
                              ("steps", YList [step [("name", YStr "s"); ("run", YStr "true")]])]);
              ("bad", YDict [("image", YStr "alpine");
                             ("steps", YList [step [("name", YStr "s"); ("run", YStr "false")]])])] |}.

Definition log_of_run_1 : list Logger.log_entry :=
  st_log (snd (sim_process_job 1 two_jobs (YStr "good") fresh)).

Definition log_of_both_runs : list Logger.log_entry :=
  st_log (snd (sim_process_job 10 two_jobs (YStr "bad")
                 (snd (sim_process_job 1 two_jobs (YStr "good") fresh)))).

(** A container job without an image in which only the first step has one. *)
Definition half_imaged_steps : list yvalue :=
  [step [("image", YStr "alpine"); ("run", YStr "true")];
   step [("run", YStr "true")]].

Definition half_imaged_job : list (string * yvalue) :=
  [("steps", YList half_imaged_steps)].

Definition half_imaged : list (string * yvalue) :=
  [("name", YStr "p"); ("jobs", YDict [("a", YDict half_imaged_job)])].

(** A container job without an image none of whose steps has one. *)
Definition unimaged_job : list (string * yvalue) :=
  [("steps", YList [step [("run", YStr "true")]])].

Definition unimaged : list (string * yvalue) :=
  [("name", YStr "p"); ("jobs", YDict [("a", YDict unimaged_job)])].

(** A group that names itself and a job that does not exist. *)
Definition knotted_jobs : list (string * yvalue) :=
  [("g", YDict [("type", YStr "job_group");
                ("jobs", YList [YStr "nowhere"]);
                ("job_groups", YList [YStr "g"])])].

Definition knotted : list (string * yvalue) :=
  [("name", YStr "p"); ("jobs", YDict knotted_jobs)].

End Scenario.

(** ** [worker/job_processor.py]: the run over the jobs of a pipeline *)

Module PipelineRun.
Import JobProcessor.

(** What ends [process_pipeline] early: an exception out of [process_job],
    or the subscript [result["status"]] on a result without that key. *)
Inductive failure : Type :=
| Builtin (e : exn)
| KeyError.

Inductive outcome (A : Type) : Type :=
| Done (a : A)
| Failed (f : failure).
Arguments Done {A} a.
Arguments Failed {A} f.

(** [v[key]] *)
Definition subscript (key : string) (v : yvalue) : outcome yvalue :=
  match v with
  | YDict d =>
      match dict_get key d with
      | Some x => Done x
      | None => Failed KeyError
      end
  | _ => Failed (Builtin TypeError)
  end.

(** The counters of the loop over the jobs: [jobs_completed],
    [jobs_failed], [pipeline_status]. *)
Record totals : Type := {
  jobs_completed : Z;
  jobs_failed : Z;
  pipeline_status : string
}.

Section Pipeline.

Context {world : Type}.
Variable now : world -> string * world.

(** [self.process_job] with everything but the job name fixed. *)
Variable run_job : string -> @M world yvalue.

(** The loop [for job_name in jobs] of [process_pipeline]; it ends with
    [break] on the first result whose status is not ["success"]. *)
Fixpoint run_jobs (names : list string) (acc : totals)
    : @state world -> outcome totals * @state world :=
  match names with
  | [] => fun s => (Done acc, s)
  | job_name :: rest => fun s =>
      match run_job job_name s with
      | (Raise e, s') => (Failed (Builtin e), s')
      | (Return result, s') =>
          match subscript "status" result with
          | Failed f => (Failed f, s')
          | Done st =>
              if eq_str st "success" then
                run_jobs rest {| jobs_completed := jobs_completed acc + 1;
                                 jobs_failed := jobs_failed acc;
                                 pipeline_status := pipeline_status acc |} s'
              else
                (Done {| jobs_completed := jobs_completed acc;
                         jobs_failed := jobs_failed acc + 1;
                         pipeline_status := "failed" |}, s')
          end
      end
  end.

Definition report (t : totals) : yvalue :=
  YDict [("status", YStr (pipeline_status t));
         ("jobs_completed", YInt (jobs_completed t));
         ("jobs_failed", YInt (jobs_failed t))].

(** The body of [process_pipeline] once [jobs = pipeline_config.list_jobs()]
    is known. *)
Definition process_names (job_id : Z) (names : list string)
    : @state world -> outcome yvalue * @state world :=
  match names with
  | [] => fun s =>
      match log_error now job_id "orchestrator" "Пайплайн не содержит jobs" s with
      | (Raise e, s') => (Failed (Builtin e), s')
      | (Return _, s') =>
          (Done (YDict [("status", YStr "failed"); ("jobs_completed", YInt 0);
                        ("jobs_failed", YInt 0);
                        ("error", YStr "Пайплайн не содержит jobs")]), s')
      end
  | _ => fun s =>
      match run_jobs names {| jobs_completed := 0; jobs_failed := 0;
                              pipeline_status := "success" |} s with
      | (Done t, s') => (Done (report t), s')
      | (Failed f, s') => (Failed f, s')
      end
  end.

End Pipeline.

(** [JobProcessor.process_pipeline] *)
Definition process_pipeline {world : Type}
    (now : world -> string * world)
    (pull_image : yvalue -> world -> bool * world)
    (execute_step : yvalue -> yvalue -> yvalue -> yvalue -> world -> (Z * string) * world)
    (sleep : Z -> world -> world)
    (format : yvalue -> string)
    (confirmation_execute :
       option (Z -> yvalue -> list (string * yvalue) -> yvalue -> yvalue -> @M world yvalue))
    (group_execute : Z -> yvalue -> list (string * yvalue) -> PipelineConfig -> @M world yvalue)
    (job_id : Z) (pipeline_config : PipelineConfig) (chat_id message_id : yvalue)
    : @state world -> outcome yvalue * @state world :=
  process_names now
    (fun job_name =>
       process_job now pull_image execute_step sleep format confirmation_execute
                   group_execute job_id pipeline_config (YStr job_name)
                   chat_id message_id)
    job_id (list_jobs pipeline_config).

End PipelineRun.

(** ** [shared/pipeline_storage.py]

    The two JSON files are represented by the dictionaries they hold; a
    file is [None] when it is missing or cannot be decoded, which the
    loaders read as an empty dictionary.  Errors of the file system are not
    represented. *)

Module PipelineStorage.

Record files : Type := {
  pipelines_file : option (gmap string (gmap string yvalue));
  subscriptions_file : option (gmap string (gmap string (gmap string yvalue)))
}.

Definition _load_pipelines (f : files) : gmap string (gmap string yvalue) :=
  default ∅ (pipelines_file f).

Definition _save_pipelines (pipelines : gmap string (gmap string yvalue))
    (f : files) : files :=
  {| pipelines_file := Some pipelines; subscriptions_file := subscriptions_file f |}.

Definition _load_subscriptions (f : files)
    : gmap string (gmap string (gmap string yvalue)) :=
  default ∅ (subscriptions_file f).

Definition _save_subscriptions
    (subscriptions : gmap string (gmap string (gmap string yvalue)))
    (f : files) : files :=
  {| pipelines_file := pipelines_file f; subscriptions_file := Some subscriptions |}.

(** [current.update(pipelines)]: the new entries win. *)
Definition update_pipelines (pipelines : gmap string (gmap string yvalue))
    (f : files) : files :=
  let current := _load_pipelines f in
  _save_pipelines (pipelines ∪ current) f.

Definition get_pipeline_info (pipeline_name : string) (f : files)
    : gmap string yvalue :=
  default {[ "auto_run" := YBool false ]} (_load_pipelines f !! pipeline_name).

Definition set_auto_run (pipeline_name : string) (auto_run : bool) (f : files)
    : files :=
  let pipelines := _load_pipelines f in
  let info := default ∅ (pipelines !! pipeline_name) in
  _save_pipelines (<[pipeline_name := <["auto_run" := YBool auto_run]> info]> pipelines) f.

(** [str(chat_id)] *)
Definition chat_key (chat_id : Z) : string := Str.of_int chat_id.

Definition subscribe_chat (chat_id : Z) (pipeline_name : string) (message_id : Z)
    (f : files) : files :=
  let subscriptions := _load_subscriptions f in
  let chat := default ∅ (subscriptions !! chat_key chat_id) in
  _save_subscriptions
    (<[chat_key chat_id :=
         <[pipeline_name := {[ "message_id" := YInt message_id; "job_id" := YNone ]}]> chat]>
       subscriptions) f.

Definition unsubscribe_chat (chat_id : Z) (pipeline_name : string) (f : files)
    : files :=
  let subscriptions := _load_subscriptions f in
  match subscriptions !! chat_key chat_id with
  | Some chat =>
      let chat' := delete pipeline_name chat in
      if (size chat' =? 0)%nat
      then _save_subscriptions (delete (chat_key chat_id) subscriptions) f
      else _save_subscriptions (<[chat_key chat_id := chat']> subscriptions) f
  | None => _save_subscriptions subscriptions f
  end.

Definition get_chat_subscriptions (chat_id : Z) (f : files)
    : gmap string (gmap string yvalue) :=
  default ∅ (_load_subscriptions f !! chat_key chat_id).

Definition update_subscription_job (chat_id : Z) (pipeline_name : string)
    (job_id : Z) (f : files) : files :=
  let subscriptions := _load_subscriptions f in
  match subscriptions !! chat_key chat_id with
  | Some chat =>
      match chat !! pipeline_name with
      | Some info =>
          _save_subscriptions
            (<[chat_key chat_id :=
                 <[pipeline_name := <["job_id" := YInt job_id]> info]> chat]>
               subscriptions) f
      | None => f
      end
  | None => f
  end.

Definition get_all_subscriptions (f : files)
    : gmap string (gmap string (gmap string yvalue)) :=
  _load_subscriptions f.

Definition get_subscription_info (chat_id : Z) (pipeline_name : string) (f : files)
    : option (gmap string yvalue) :=
  match _load_subscriptions f !! chat_key chat_id with
  | Some chat => chat !! pipeline_name
  | None => None
  end.

(** The pair of a chat and a pipeline is the given one. *)
Definition same_pair (chat_id chat_id' : Z) (pipeline_name pipeline_name' : string) : bool :=
  (chat_id' =? chat_id) && String.eqb pipeline_name' pipeline_name.

(** No chat is left with an empty dictionary of subscriptions. *)
Definition no_empty_chat (f : files) : Prop :=
  forall key chat, _load_subscriptions f !! key = Some chat -> chat <> ∅.

End PipelineStorage.

(** ** [bot/orchestrator.py]

    The Git service is the environment of the orchestrator.  What it
    answers is given: for the listing, the file names or the text of the
    exception it raised; for a manifest, the value [yaml.safe_load] makes of
    the text fetched, or the text of the exception [get_pipeline_yaml]
    raised.  [error_text] is [str(e)] for the [ValueError] that [parse]
    raises on a loaded value. *)

Module Orchestrator.
Import JobProcessor PipelineStorage.

(** An entry of [running_jobs]; the keys set later by the driver are
    [None] until then. *)
Record job_info : Type := {
  pipeline_name : string;
  pipeline_config : PipelineConfig;
  telegram_user_id : Z;
  chat_id : option Z;
  message_id : option Z;
  status : string;
  started_at : option Z;
  finished_at : option Z;
  result : option yvalue;
  error : option string
}.

Record orchestrator : Type := {
  _job_counter : Z;
  running_jobs : gmap Z job_info
}.

(** The dictionary [get_job_status] returns. *)
Record status_info : Type := {
  info_job_id : Z;
  info_pipeline_name : string;
  info_status : string;
  info_started_at : option Z;
  info_finished_at : option Z;
  info_result : option yvalue;
  info_error : option string
}.

Definition get_job_status (job_id : Z) (o : orchestrator) : option status_info :=
  match running_jobs o !! job_id with
  | None => None
  | Some job =>
      Some {| info_job_id := job_id;
              info_pipeline_name := pipeline_name job;
              info_status := status job;
              info_started_at := started_at job;
              info_finished_at := finished_at job;
              info_result := result job;
              info_error := error job |}
  end.

(** [_generate_job_id]: the id and the orchestrator afterwards. *)
Definition _generate_job_id (o : orchestrator) : Z * orchestrator :=
  (_job_counter o + 1,
   {| _job_counter := _job_counter o + 1; running_jobs := running_jobs o |}).

(** [get_pipelines_with_auto_run] *)
Definition get_pipelines_with_auto_run (f : files) : gmap string yvalue :=
  (fun info : gmap string yvalue => default (YBool false) (info !! "auto_run"))
    <$> _load_pipelines f.

(** The registry invariant: every registered id was handed out. *)
Definition ids_handed_out (o : orchestrator) : Prop :=
  0 <= _job_counter o
  /\ forall job_id job, running_jobs o !! job_id = Some job ->
                        1 <= job_id <= _job_counter o.

Section Service.

Context {world : Type}.
Variable now : world -> string * world.
Variable manifest : string -> string + py yvalue.
Variable error_text : py yvalue -> string.

(** The loop of [discover_pipelines] over the file names: a manifest that
    cannot be fetched or parsed is logged under run 0 and left out. *)
Fixpoint discover_each (pipeline_files : list string)
    (pipelines_info : gmap string (gmap string yvalue))
    : @M world (gmap string (gmap string yvalue)) :=
  match pipeline_files with
  | [] => ret pipelines_info
  | pipeline_name :: rest =>
      match manifest pipeline_name with
      | inl text =>
          bind (log_error now 0 "orchestrator"
                  ("Ошибка загрузки пайплайна " +:+ pipeline_name +:+ ": " +:+ text))
               (fun _ => discover_each rest pipelines_info)
      | inr loaded =>
          match YAMLParser.parse loaded with
          | Raise _ =>
              bind (log_error now 0 "orchestrator"
                      ("Ошибка загрузки пайплайна " +:+ pipeline_name +:+ ": " +:+
                       error_text loaded))
                   (fun _ => discover_each rest pipelines_info)
          | Return config =>
              discover_each rest
                (<[pipeline_name := {[ "name" := name config;
                                       "auto_run" := YBool false ]}]> pipelines_info)
          end
      end
  end.

(** What the manifest of a file name contributes to [pipelines_info]. *)
Definition discovery (pipeline_name : string) : option (gmap string yvalue) :=
  match manifest pipeline_name with
  | inl _ => None
  | inr loaded =>
      match YAMLParser.parse loaded with
      | Raise _ => None
      | Return config => Some {[ "name" := name config; "auto_run" := YBool false ]}
      end
  end.

(** The manifests that could be fetched and parsed, by file name. *)
Fixpoint discovered (pipeline_files : list string)
    (pipelines_info : gmap string (gmap string yvalue))
    : gmap string (gmap string yvalue) :=
  match pipeline_files with
  | [] => pipelines_info
  | pipeline_name :: rest =>
      match discovery pipeline_name with
      | Some info => discovered rest (<[pipeline_name := info]> pipelines_info)
      | None => discovered rest pipelines_info
      end
  end.

(** [discover_pipelines]: what it returns, the files and the runtime state
    afterwards.  The handler of the outer [try] is entered from the listing
    only: the loop catches what a manifest raises, and the writes to the log
    raise nothing, so the last branch below is never taken. *)
Definition discover_pipelines (listing : string + list string) (f : files)
    (s : @state world)
    : gmap string (gmap string yvalue) * files * @state world :=
  match listing with
  | inl text =>
      (∅, f,
       snd (log_error now 0 "orchestrator"
              ("Ошибка обнаружения пайплайнов: " +:+ text) s))
  | inr pipeline_files =>
      match discover_each pipeline_files ∅ s with
      | (Return pipelines_info, s') =>
          (pipelines_info, update_pipelines pipelines_info f, s')
      | (Raise _, s') => (∅, f, s')
      end
  end.

(** [run_pipeline], up to the creation of the driver task: the id returned
    or the text of the exception raised again, the orchestrator, the files
    and the runtime state afterwards. *)
Definition run_pipeline (pipeline_name : string) (telegram_user_id : Z)
    (chat_id message_id : option Z) (o : orchestrator) (f : files)
    (s : @state world)
    : (string + Z) * orchestrator * files * @state world :=
  let (job_id, o1) := _generate_job_id o in
  let failed text :=
    (inl text, o1, f,
     snd (log_error now job_id "orchestrator"
            ("Ошибка запуска пайплайна: " +:+ text) s)) in
  match manifest pipeline_name with
  | inl text => failed text
  | inr loaded =>
      match YAMLParser.parse loaded with
      | Raise _ => failed (error_text loaded)
      | Return config =>
          let job := {| pipeline_name := pipeline_name;
                        pipeline_config := config;
                        telegram_user_id := telegram_user_id;
                        chat_id := chat_id;
                        message_id := message_id;
                        status := "pending";
                        started_at := None;
                        finished_at := None;
                        result := None;
                        error := None |} in
          let o2 := {| _job_counter := _job_counter o1;
                       running_jobs := <[job_id := job]> (running_jobs o1) |} in
          let f' := match chat_id with
                    | Some c => if c =? 0 then f
                                else update_subscription_job c pipeline_name job_id f
                    | None => f
                    end in
          (inr job_id, o2, f', s)
      end
  end.

End Service.
End Orchestrator.

(** ** [shared/yaml_parser.py]: the step validator *)

Module StepValidator.

(** [YAMLParser.validate_step] *)
Definition validate_step (step : yvalue) : bool :=
  match step with
  | YDict d => has_key "run" d
  | _ => false
  end.

End StepValidator.

(** ** [bot/handlers.py]: the reply of [/logs] *)

Module Handlers.

Definition max_length : nat := 4000.

Definition with_newline (line : string) : string := line +:+ Logger.newline.

(** The loop [for line in reversed(lines)] of [cmd_logs]: lines are put in
    front of the response, last line first, until one does not fit. *)
Fixpoint fit (reversed_lines : list string) (response_lines : list string)
    (current_length : nat) : list string :=
  match reversed_lines with
  | [] => response_lines
  | line :: rest =>
      let line_with_newline := with_newline line in
      if (max_length <? current_length + String.length line_with_newline)%nat
      then response_lines
      else fit rest (line_with_newline :: response_lines)
               (current_length + String.length line_with_newline)
  end.

(** [len(''.join(lines))] *)
Definition total (lines : list string) : nat :=
  String.length (String.concat EmptyString lines).

(** The [response_lines] of a log too long to be sent whole. *)
Definition last_lines (logs : string) : list string :=
  fit (rev (Str.split_all (ascii_of_nat 10) logs)) [] O.

(** The text put between the [<pre>] tags of the reply, for a log that is
    not empty. *)
Definition shown_logs (logs : string) : string :=
  if (String.length logs <=? max_length)%nat then logs
  else String.concat EmptyString (last_lines logs).

End Handlers.

(** ** Lines of the log *)

Module LogLines.
Import Logger.

(** Neither a line feed nor a carriage return. *)
Definition no_break (c : ascii) : bool :=
  negb (Str.code c =? 10)%nat && negb (Str.code c =? 13)%nat.

(** The text fields of an entry hold no line break. *)
Definition line_free (e : log_entry) : bool :=
  Str.all_chars no_break (timestamp e) && Str.all_chars no_break (step_name e)
  && Str.all_chars no_break (log_type e) && Str.all_chars no_break (content e).

End LogLines.

(** ** [shared/git_service.py]: the owner and the name of the repository *)

Module GitService.

(** [s.replace(old, new)], which is [new.join(s.split(old))]. *)
Definition replace (old new s : string) : string :=
  Str.join new (Str.split_sub old 0 s).

(** [s[:-4]] *)
Definition drop_last4 (s : string) : string :=
  Str.drop_last (Str.drop_last (Str.drop_last (Str.drop_last s))).

(** [_parse_repo_info]: the values of [self.owner] and [self.repo]. *)
Definition _parse_repo_info (repo_url : string) : py (string * string) :=
  let url := Str.strip repo_url in
  let url := if Str.endswith ".git" url then drop_last4 url else url in
  py_bind
    (if Str.startswith "https://github.com/" url then
       Return (Str.split_all "/" (replace "https://github.com/" EmptyString url))
     else if Str.startswith "git@github.com:" url then
       Return (Str.split_all "/" (replace "git@github.com:" EmptyString url))
     else Raise ValueError)
    (fun parts =>
       match parts with
       | owner :: repo :: _ => Return (owner, repo)
       | _ => Raise ValueError
       end).

(** The characters of the name of an owner or of a repository: no
    whitespace, no slash, no colon. *)
Definition name_char (c : ascii) : bool :=
  negb (Str.is_space c) && negb (Ascii.eqb c "/") && negb (Ascii.eqb c ":").

End GitService.

(** ** More cases

    Inputs on which the properties of the rest of the engine are tried, in
    the simulated environment of the scenarios. *)

Module Cases.
Import JobProcessor Scenario.

Definition zero : counters :=
  {| steps_completed := 0; steps_failed := 0; job_status := "success" |}.

Definition sim_run_steps (job_id : Z) (job_image : yvalue) (steps : list yvalue)
    (acc : counters) : @M sim counters :=
  run_steps sim_now sim_pull sim_exec fmt job_id job_image steps acc.

Definition failing_step : yvalue := step [("name", YStr "s"); ("run", YStr "false")].

Definition passing_step : yvalue := step [("name", YStr "t"); ("run", YStr "true")].

Definition failing_step_info : YAMLParser.step_info :=
  {| YAMLParser.si_name := YStr "s"; YAMLParser.si_image := YStr "alpine";
     YAMLParser.si_run := YStr "false"; YAMLParser.si_env := YDict [] |}.

Definition build_steps : list yvalue :=
  [step [("name", YStr "fetch"); ("image", YStr "ghost"); ("run", YStr "echo a")];
   step [("name", YStr "test"); ("image", YStr "alpine"); ("run", YStr "echo b")]].

(** A job with an image and an empty list of steps. *)
Definition idle_job : list (string * yvalue) :=
  [("image", YStr "alpine"); ("steps", YList [])].

Definition idle_pipeline : PipelineConfig :=
  {| name := YStr "p"; jobs := [("idle", YDict idle_job)] |}.

Definition sim_run_job (job_name : string) : @M sim yvalue :=
  sim_process_job 1 two_jobs (YStr job_name).

Definition sim_process_pipeline (pipeline_config : PipelineConfig)
    : @state sim -> PipelineRun.outcome yvalue * @state sim :=
  PipelineRun.process_pipeline sim_now sim_pull sim_exec sim_sleep fmt None no_group
                               1 pipeline_config YNone YNone.

Definition empty_manifest : list (string * yvalue) :=
  [("name", YStr "p"); ("jobs", YDict [])].

(** A Git service with one manifest that parses and one that does not. *)
Definition sim_manifest (pipeline_name : string) : string + py yvalue :=
  if String.eqb pipeline_name "deploy.yaml" then inr (Return (YDict knotted))
  else if String.eqb pipeline_name "broken.yaml" then inr (Return (YDict unimaged))
  else inl "404".

Definition sim_error_text (loaded : py yvalue) : string := "invalid manifest".

Definition idle_orchestrator : Orchestrator.orchestrator :=
  {| Orchestrator._job_counter := 0; Orchestrator.running_jobs := ∅ |}.

Definition no_files : PipelineStorage.files :=
  {| PipelineStorage.pipelines_file := None;
     PipelineStorage.subscriptions_file := None |}.

(** A log of 500 lines of ten characters. *)
Definition long_log : string :=
  String.concat Logger.newline (repeat "0123456789" 500).

End Cases.

(** * Properties *)

(** ** Strings *)

Module StrFacts.
Import Str.

Lemma all_chars_app p s t :
  all_chars p (s +:+ t) = all_chars p s && all_chars p t.
Proof.
  induction s as [|c s IH]; simpl; [reflexivity|].
  rewrite IH. apply andb_assoc.
Qed.

Lemma all_chars_weaken (p q : ascii -> bool) s :
  (forall c, p c = true -> q c = true) ->
  all_chars p s = true -> all_chars q s = true.
Proof.
  intros Hpq. induction s as [|c s IH]; simpl; [reflexivity|].
  intros H. apply andb_true_iff in H as [Hc Hs].
  rewrite (Hpq c Hc), (IH Hs). reflexivity.
Qed.

(** Facts about single characters are settled by running through the 256
    of them. *)
Ltac by_cases_on_char c :=
  destruct c as [[] [] [] [] [] [] [] []]; vm_compute; intros; congruence.

Lemma numeral_not_space c : numeral_char c = true -> negb (is_space c) = true.
Proof. by_cases_on_char c. Qed.

Lemma numeral_lower c : numeral_char c = true -> lower_char c = c.
Proof. by_cases_on_char c. Qed.

Lemma numeral_not_underscore c : numeral_char c = true -> negb (Ascii.eqb c "_") = true.
Proof. by_cases_on_char c. Qed.

Lemma numeral_not_letter (x : ascii) c :
  numeral_char x = false -> numeral_char c = true -> negb (Ascii.eqb c x) = true.
Proof.
  intros Hx Hc. destruct (Ascii.eqb_spec c x) as [->|]; [congruence|reflexivity].
Qed.

Lemma digit_numeral c : is_digit c = true -> numeral_char c = true.
Proof. unfold numeral_char. intros ->. reflexivity. Qed.

Lemma digit_not_sign c :
  is_digit c = true -> Ascii.eqb c "-" = false /\ Ascii.eqb c "+" = false.
Proof.
  destruct c as [[] [] [] [] [] [] [] []]; vm_compute; intros; (split; congruence).
Qed.

Lemma lstrip_id s : all_chars (fun c => negb (is_space c)) s = true -> lstrip s = s.
Proof.
  destruct s as [|c s]; simpl; [reflexivity|].
  intros H. apply andb_true_iff in H as [Hc _].
  apply negb_true_iff in Hc. rewrite Hc. reflexivity.
Qed.

Lemma rstrip_id s : all_chars (fun c => negb (is_space c)) s = true -> rstrip s = s.
Proof.
  induction s as [|c s IH]; simpl; [reflexivity|].
  intros H. apply andb_true_iff in H as [Hc Hs].
  rewrite (IH Hs). apply negb_true_iff in Hc. rewrite Hc.
  destruct s; reflexivity.
Qed.

Lemma strip_id s : all_chars (fun c => negb (is_space c)) s = true -> strip s = s.
Proof. intros H. unfold strip. rewrite (lstrip_id s H). apply rstrip_id, H. Qed.

Lemma lower_id s : all_chars (fun c => Ascii.eqb (lower_char c) c) s = true -> lower s = s.
Proof.
  induction s as [|c s IH]; simpl; [reflexivity|].
  intros H. apply andb_true_iff in H as [Hc Hs].
  apply Ascii.eqb_eq in Hc. rewrite Hc, (IH Hs). reflexivity.
Qed.

Lemma eqb_app_single_false s (x : ascii) (t : string) :
  all_chars (fun c => negb (Ascii.eqb c x)) s = true ->
  String.eqb s (t +:+ String x EmptyString) = false.
Proof.
  revert t. induction s as [|c s IH]; intros t H.
  - destruct t; reflexivity.
  - simpl in H. apply andb_true_iff in H as [Hc Hs].
    apply negb_true_iff in Hc.
    destruct t as [|d t]; simpl.
    + rewrite Hc. reflexivity.
    + destruct (Ascii.eqb c d); [apply IH, Hs | reflexivity].
Qed.

(** A string without the character [x] does not end with it. *)
Lemma endswith_absent s (x : ascii) :
  all_chars (fun c => negb (Ascii.eqb c x)) s = true ->
  endswith (String x EmptyString) s = false.
Proof.
  induction s as [|c s IH]; intros H; simpl.
  - reflexivity.
  - pose proof (eqb_app_single_false (String c s) x EmptyString H) as E.
    simpl in E. simpl. rewrite E. simpl in H.
    apply andb_true_iff in H as [_ Hs]. apply IH, Hs.
Qed.

Lemma endswith_app s suf : endswith suf (s +:+ suf) = true.
Proof.
  induction s as [|c s IH]; simpl.
  - destruct suf; simpl; [reflexivity|].
    rewrite Ascii.eqb_refl, String.eqb_refl. reflexivity.
  - rewrite IH. apply orb_true_r.
Qed.

Lemma drop_last_app s (x : ascii) : drop_last (s +:+ String x EmptyString) = s.
Proof.
  induction s as [|c s IH]; simpl; [reflexivity|].
  rewrite IH. destruct s; reflexivity.
Qed.

Lemma split_on_zero sep s : split_on sep O s = [s].
Proof.
  induction s as [|c s IH]; simpl; [reflexivity|].
  destruct (Ascii.eqb c sep); [reflexivity|]. rewrite IH. reflexivity.
Qed.

(** The first cut falls on the first separator. *)
Lemma split_on_cut sep m a b :
  all_chars (fun c => negb (Ascii.eqb c sep)) a = true ->
  split_on sep (S m) (a +:+ String sep b) = a :: split_on sep m b.
Proof.
  induction a as [|c a IH]; simpl; intros H.
  - rewrite Ascii.eqb_refl. reflexivity.
  - apply andb_true_iff in H as [Hc Ha]. apply negb_true_iff in Hc.
    rewrite Hc, (IH Ha). reflexivity.
Qed.

(** *** Decimal numerals *)

Lemma uint_digits d : all_chars is_digit (NilEmpty.string_of_uint d) = true.
Proof. induction d; simpl; auto. Qed.

Lemma valid_digits_all after s :
  all_chars is_digit s = true -> s <> EmptyString -> valid_digits after s = true.
Proof.
  revert after. induction s as [|c s IH]; intros after H Hne; [congruence|].
  simpl in *. apply andb_true_iff in H as [Hc Hs]. rewrite Hc.
  destruct s as [|c' s']; [reflexivity|]. apply IH; [exact Hs | discriminate].
Qed.

Lemma drop_underscores_id s :
  all_chars (fun c => negb (Ascii.eqb c "_")) s = true -> drop_underscores s = s.
Proof.
  induction s as [|c s IH]; simpl; [reflexivity|].
  intros H. apply andb_true_iff in H as [Hc Hs]. apply negb_true_iff in Hc.
  rewrite Hc, (IH Hs). reflexivity.
Qed.

Lemma int_unsigned_uint d :
  d <> Decimal.Nil ->
  int_unsigned (NilEmpty.string_of_uint d) = Some (Z.of_uint d).
Proof.
  intros Hd. unfold int_unsigned.
  rewrite valid_digits_all.
  - rewrite drop_underscores_id.
    + rewrite NilEmpty.usu. reflexivity.
    + eapply all_chars_weaken; [|apply (uint_digits d)].
      intros c Hc. apply numeral_not_underscore, digit_numeral, Hc.
  - apply uint_digits.
  - destruct d; simpl; congruence.
Qed.

Lemma pos_to_uint_nonnil p : Pos.to_uint p <> Decimal.Nil.
Proof.
  intros H. pose proof (DecimalPos.Unsigned.of_to p) as E.
  rewrite H in E. discriminate E.
Qed.

Lemma of_uint_to_uint p : Z.of_uint (Pos.to_uint p) = Z.pos p.
Proof.
  unfold Z.of_uint. rewrite DecimalPos.Unsigned.of_to. reflexivity.
Qed.

Lemma of_int_pos p : of_int (Z.pos p) = NilEmpty.string_of_uint (Pos.to_uint p).
Proof.
  unfold of_int. simpl. pose proof (pos_to_uint_nonnil p).
  destruct (Pos.to_uint p); simpl; congruence.
Qed.

Lemma of_int_neg p :
  of_int (Z.neg p) = String "-" (NilEmpty.string_of_uint (Pos.to_uint p)).
Proof.
  unfold of_int. simpl. pose proof (pos_to_uint_nonnil p).
  destruct (Pos.to_uint p); simpl; congruence.
Qed.

Lemma of_int_numeral n : all_chars numeral_char (of_int n) = true.
Proof.
  destruct n as [|p|p].
  - reflexivity.
  - rewrite of_int_pos. eapply all_chars_weaken; [|apply uint_digits].
    apply digit_numeral.
  - rewrite of_int_neg. simpl. eapply all_chars_weaken; [|apply uint_digits].
    apply digit_numeral.
Qed.

Lemma blank_is_space c : is_blank c = true -> is_space c = true.
Proof.
  unfold is_blank, is_space. intros H.
  apply orb_true_iff in H as [H|H]; [rewrite H; reflexivity|].
  apply Nat.eqb_eq in H. rewrite H. reflexivity.
Qed.

Lemma skip_leading_id p s :
  all_chars (fun c => negb (p c)) s = true -> skip_leading p s = s.
Proof.
  destruct s as [|c r]; [reflexivity|]. simpl.
  intros H. apply andb_true_iff in H as [Hc _].
  apply negb_true_iff in Hc. rewrite Hc. reflexivity.
Qed.

Lemma skip_trailing_id p s :
  all_chars (fun c => negb (p c)) s = true -> skip_trailing p s = s.
Proof.
  induction s as [|c r IH]; [reflexivity|]. simpl.
  intros H. apply andb_true_iff in H as [Hc Hr].
  rewrite (IH Hr). apply negb_true_iff in Hc. rewrite Hc.
  destruct r; reflexivity.
Qed.

(** [int] finds nothing to skip around a text without whitespace. *)
Lemma skip_blanks_id s :
  all_chars (fun c => negb (is_space c)) s = true ->
  skip_trailing is_blank (skip_leading is_blank s) = s.
Proof.
  intros H.
  assert (B : all_chars (fun c => negb (is_blank c)) s = true).
  { eapply all_chars_weaken; [|exact H]. intros c Hc.
    destruct (is_blank c) eqn:E; [|reflexivity].
    cbv beta in Hc. rewrite (blank_is_space c E) in Hc. discriminate. }
  rewrite (skip_leading_id _ s B). apply skip_trailing_id, B.
Qed.

Lemma int_digits s :
  all_chars is_digit s = true -> s <> EmptyString -> int s = int_unsigned s.
Proof.
  intros H Hne. unfold int. rewrite skip_blanks_id.
  - destruct s as [|c s]; [congruence|]. simpl in H.
    apply andb_true_iff in H as [Hc _].
    destruct (digit_not_sign c Hc) as [-> ->]. reflexivity.
  - eapply all_chars_weaken; [|exact H].
    intros c Hc. apply numeral_not_space, digit_numeral, Hc.
Qed.

(** [int(str(n)) == n] *)
Lemma int_of_int n : int (of_int n) = Some n.
Proof.
  destruct n as [|p|p].
  - reflexivity.
  - rewrite of_int_pos, int_digits.
    + rewrite int_unsigned_uint by apply pos_to_uint_nonnil.
      rewrite of_uint_to_uint. reflexivity.
    + apply uint_digits.
    + pose proof (pos_to_uint_nonnil p). destruct (Pos.to_uint p); simpl; congruence.
  - rewrite of_int_neg. unfold int. rewrite skip_blanks_id.
    + simpl. rewrite int_unsigned_uint by apply pos_to_uint_nonnil.
      rewrite of_uint_to_uint. reflexivity.
    + change (String "-" (NilEmpty.string_of_uint (Pos.to_uint p)))
        with ("-" +:+ NilEmpty.string_of_uint (Pos.to_uint p)).
      rewrite all_chars_app. simpl.
      eapply all_chars_weaken; [|apply uint_digits].
      intros c Hc. apply numeral_not_space, digit_numeral, Hc.
Qed.

End StrFacts.

(** ** The memory limit *)

Module DockerFacts.
Import Str StrFacts DockerExecutor.

Lemma numeral_plain c : numeral_char c = true -> plain c = true.
Proof.
  intros H. unfold plain.
  rewrite (numeral_not_space c H), (numeral_lower c H), Ascii.eqb_refl.
  reflexivity.
Qed.

(** [lower] and [strip] leave a numeral followed by a unit letter alone. *)
Lemma normalised n suffix :
  all_chars plain suffix = true ->
  strip (lower (of_int n +:+ suffix)) = of_int n +:+ suffix.
Proof.
  intros Hs.
  assert (H : all_chars plain (of_int n +:+ suffix) = true).
  { rewrite all_chars_app, Hs, andb_true_r.
    eapply all_chars_weaken; [apply numeral_plain | apply of_int_numeral]. }
  rewrite lower_id.
  - apply strip_id. eapply all_chars_weaken; [|exact H].
    unfold plain. intros c Hc. apply andb_true_iff in Hc as [Hc _]. exact Hc.
  - eapply all_chars_weaken; [|exact H].
    unfold plain. intros c Hc. apply andb_true_iff in Hc as [_ Hc]. exact Hc.
Qed.

(** A numeral followed by the letter [y] does not end with another letter. *)
Lemma other_unit n (x y : ascii) :
  numeral_char x = false -> Ascii.eqb y x = false ->
  endswith (String x EmptyString) (of_int n +:+ String y EmptyString) = false.
Proof.
  intros Hx Hy. apply endswith_absent.
  rewrite all_chars_app. simpl. rewrite Hy. simpl. rewrite andb_true_r.
  eapply all_chars_weaken; [|apply of_int_numeral].
  intros c. apply numeral_not_letter, Hx.
Qed.

Lemma no_unit n (x : ascii) :
  numeral_char x = false ->
  endswith (String x EmptyString) (of_int n) = false.
Proof.
  intros Hx. apply endswith_absent.
  eapply all_chars_weaken; [|apply of_int_numeral].
  intros c. apply numeral_not_letter, Hx.
Qed.

Lemma int_or_raise_of_int n : int_or_raise (of_int n) = Return n.
Proof. unfold int_or_raise. rewrite int_of_int. reflexivity. Qed.

(** C9.  For every integer [n], the memory limit written as the decimal
    numeral of [n] followed by [k], [m] or [g] converts to [n * 1024],
    [n * 1024^2] and [n * 1024^3] bytes, and the bare numeral converts to
    [n] itself. *)
Theorem convert_memory_limit_units (n : Z) :
  _convert_memory_limit (of_int n +:+ "k") = Return (n * 1024) /\
  _convert_memory_limit (of_int n +:+ "m") = Return (n * 1024 ^ 2) /\
  _convert_memory_limit (of_int n +:+ "g") = Return (n * 1024 ^ 3) /\
  _convert_memory_limit (of_int n) = Return n.
Proof.
  unfold _convert_memory_limit. repeat split.
  - rewrite (normalised n "k") by reflexivity.
    rewrite (endswith_app (of_int n) "k"), drop_last_app, int_or_raise_of_int.
    reflexivity.
  - rewrite (normalised n "m") by reflexivity.
    rewrite (other_unit n "k" "m") by reflexivity.
    rewrite (endswith_app (of_int n) "m"), drop_last_app, int_or_raise_of_int.
    simpl. f_equal. lia.
  - rewrite (normalised n "g") by reflexivity.
    rewrite (other_unit n "k" "g"), (other_unit n "m" "g") by reflexivity.
    rewrite (endswith_app (of_int n) "g"), drop_last_app, int_or_raise_of_int.
    simpl. f_equal. lia.
  - pose proof (normalised n EmptyString eq_refl) as E.
    assert (A : of_int n +:+ EmptyString = of_int n).
    { generalize (of_int n). intros s.
      induction s as [|c s IH]; [reflexivity|].
      change (String c (s +:+ EmptyString) = String c s). rewrite IH. reflexivity. }
    rewrite A in E. rewrite E.
    rewrite (no_unit n "k"), (no_unit n "m"), (no_unit n "g") by reflexivity.
    apply int_or_raise_of_int.
Qed.

Example convert_512m : _convert_memory_limit "512m" = Return 536870912.
Proof. reflexivity. Qed.

(** The limit is lowered and stripped first, so an upper-case unit reads
    like the lower-case one. *)
Example convert_upper_case : _convert_memory_limit " 2G " = Return 2147483648.
Proof. reflexivity. Qed.

Example convert_unknown_unit : _convert_memory_limit "12x" = Raise ValueError.
Proof. reflexivity. Qed.

End DockerFacts.

(** ** Confirmation callbacks *)

Module ConfirmationFacts.
Import Str StrFacts ConfirmationJobExecutor.

Lemma startswith_app p s : startswith p (p +:+ s) = true.
Proof.
  unfold startswith. induction p as [|c p IH]; [destruct s; reflexivity|].
  change (String c p +:+ s) with (String c (p +:+ s)). simpl.
  destruct (ascii_dec c c); [exact IH | congruence].
Qed.

Lemma of_int_no_underscore n :
  all_chars (fun c => negb (Ascii.eqb c "_")) (of_int n) = true.
Proof.
  eapply all_chars_weaken; [apply numeral_not_underscore | apply of_int_numeral].
Qed.

(** The data of a button splits back into its three fields, whatever
    underscores the job name holds. *)
Lemma split_callback_data action job_id job_name :
  all_chars (fun c => negb (Ascii.eqb c "_")) action = true ->
  split_on "_" 2 (callback_data_of action job_id job_name)
  = [action; of_int job_id; job_name].
Proof.
  intros Ha. unfold callback_data_of.
  change (action +:+ "_" +:+ of_int job_id +:+ "_" +:+ job_name)
    with (action +:+ String "_" (of_int job_id +:+ String "_" job_name)).
  rewrite (split_on_cut "_" 1 action _ Ha).
  rewrite (split_on_cut "_" 0 (of_int job_id) _ (of_int_no_underscore job_id)).
  rewrite split_on_zero. reflexivity.
Qed.

(** What either branch does with the data of its own button. *)
Lemma route_button action decision job_id job_name pending :
  all_chars (fun c => negb (Ascii.eqb c "_")) action = true ->
  route action decision (callback_data_of action job_id job_name) pending =
  match pending !! confirmation_key job_id job_name with
  | Some r =>
      (Return (Some (YDict [("action", YStr action); ("job_id", YInt job_id);
                            ("job_name", YStr job_name)])),
       <[confirmation_key job_id job_name := resolve decision r]> pending)
  | None => (Return None, pending)
  end.
Proof.
  intros Ha. unfold route.
  rewrite (split_callback_data action job_id job_name Ha).
  rewrite int_of_int. reflexivity.
Qed.

(** C8.  For the data of either button, [confirm_<runID>_<jobName>] or
    [cancel_<runID>_<jobName>], and every table of pending confirmations:
    when the table has no registration under the key [<runID>_<jobName>] the
    handler returns [None], raises nothing and leaves the table as it was;
    when it has one, the handler reports the first token as the action, the
    second as the run id and the whole remainder as the job name (which may
    contain underscores), and stores the decision. *)
Theorem handle_callback_button (job_id : Z) (job_name : string) (user_id : Z)
    (pending : gmap string registration) :
  handle_callback (callback_data_of "confirm" job_id job_name) user_id pending =
    match pending !! confirmation_key job_id job_name with
    | Some r =>
        (Return (Some (YDict [("action", YStr "confirm"); ("job_id", YInt job_id);
                              ("job_name", YStr job_name)])),
         <[confirmation_key job_id job_name := resolve true r]> pending)
    | None => (Return None, pending)
    end
  /\
  handle_callback (callback_data_of "cancel" job_id job_name) user_id pending =
    match pending !! confirmation_key job_id job_name with
    | Some r =>
        (Return (Some (YDict [("action", YStr "cancel"); ("job_id", YInt job_id);
                              ("job_name", YStr job_name)])),
         <[confirmation_key job_id job_name := resolve false r]> pending)
    | None => (Return None, pending)
    end.
Proof.
  split; unfold handle_callback.
  - assert (P : startswith "confirm_" (callback_data_of "confirm" job_id job_name) = true).
    { exact (startswith_app "confirm_" (of_int job_id +:+ "_" +:+ job_name)). }
    rewrite P. apply route_button. reflexivity.
  - assert (P : startswith "confirm_" (callback_data_of "cancel" job_id job_name) = false)
      by reflexivity.
    assert (Q : startswith "cancel_" (callback_data_of "cancel" job_id job_name) = true).
    { exact (startswith_app "cancel_" (of_int job_id +:+ "_" +:+ job_name)). }
    rewrite P, Q. apply route_button. reflexivity.
Qed.

(** Data that carries neither prefix is not for this handler. *)
Lemma handle_callback_foreign callback_data user_id
    (pending : gmap string registration) :
  startswith "confirm_" callback_data = false ->
  startswith "cancel_" callback_data = false ->
  handle_callback callback_data user_id pending = (Return None, pending).
Proof. intros H1 H2. unfold handle_callback. rewrite H1, H2. reflexivity. Qed.

(** Outside the format of the buttons the handler is not total: a second
    token that is no integer makes [int] raise. *)
Example handle_callback_bad_run_id :
  fst (handle_callback "confirm_abc_deploy" 1 ∅) = Raise ValueError.
Proof. reflexivity. Qed.

Example handle_callback_keeps_underscores :
  Str.split_on "_" 2 "cancel_12_deploy_to_prod" = ["cancel"; "12"; "deploy_to_prod"].
Proof. reflexivity. Qed.

End ConfirmationFacts.

(** ** Job groups *)

Module GroupFacts.
Import JobGroupExecutor.

Lemma settle_success pending acc t :
  succeeded t = true -> settle pending acc t = count_success acc.
Proof.
  unfold succeeded, settle. destruct (outcome (task_run t)) as [r|e]; [|discriminate].
  destruct (value_get "status" YNone r) as [st|e]; [|discriminate].
  intros ->. reflexivity.
Qed.

Lemma settle_failure pending acc t :
  succeeded t = false ->
  exists cancel, settle pending acc t = count_failure cancel pending (is_necessary t) acc.
Proof.
  unfold succeeded, settle. destruct (outcome (task_run t)) as [r|e].
  - destruct (value_get "status" YNone r) as [st|e].
    + intros ->. exists true. reflexivity.
    + intros _. exists true. reflexivity.
  - intros _.
    destruct e; [exists true | exists true | exists true | exists false | exists true];
      reflexivity.
Qed.

Lemma tally_eta (a b : tally) :
  completed a = completed b -> failed a = failed b -> status a = status b ->
  cancelled a = cancelled b -> a = b.
Proof. destruct a, b. simpl. intros -> -> -> ->. reflexivity. Qed.

(** With nothing pending, the loop over [done] only counts. *)
Lemma fold_settle tasks : forall acc,
  fold_left (settle []) tasks acc = tally_of acc tasks.
Proof.
  induction tasks as [|t tasks IH]; intros acc.
  - apply tally_eta; simpl; try reflexivity; lia.
  - simpl fold_left. rewrite IH.
    unfold tally_of, necessary_failure. simpl List.filter. simpl existsb.
    destruct (succeeded t) eqn:Hs.
    + rewrite (settle_success [] acc t Hs).
      rewrite andb_false_r. simpl negb. cbv iota.
      apply tally_eta; simpl; try reflexivity; lia.
    + destruct (settle_failure [] acc t Hs) as [cancel ->].
      rewrite andb_true_r. simpl negb. cbv iota.
      apply tally_eta; simpl.
      * reflexivity.
      * lia.
      * destruct (truthy (is_necessary t)); simpl; [|reflexivity].
        destruct (existsb _ tasks); reflexivity.
      * destruct (truthy (is_necessary t) && cancel); [apply app_nil_r | reflexivity].
Qed.

Lemma finish_nonempty tasks :
  tasks <> [] ->
  finish tasks =
  {| result := Return (YDict [("status", YStr (status (tally_of start tasks)));
                              ("completed", YInt (completed (tally_of start tasks)));
                              ("failed", YInt (failed (tally_of start tasks)))]);
     returns_at := latest tasks;
     cancel_requests := [] |}.
Proof.
  intros Hne. unfold finish.
  destruct tasks as [|t l]; [congruence|].
  unfold asyncio_wait_all. rewrite fold_settle. reflexivity.
Qed.

Lemma count_map (p : task -> bool) (f : task -> task) (l : list task) :
  (forall t, p (f t) = p t) ->
  length (List.filter p (map f l)) = length (List.filter p l).
Proof.
  intros Hp. induction l as [|t l IH]; simpl; [reflexivity|].
  rewrite Hp. destruct (p t); simpl; rewrite IH; reflexivity.
Qed.

Lemma existsb_map (p : task -> bool) (f : task -> task) (l : list task) :
  (forall t, p (f t) = p t) -> existsb p (map f l) = existsb p l.
Proof.
  intros Hp. induction l as [|t l IH]; simpl; [reflexivity|].
  rewrite Hp, IH. reflexivity.
Qed.

Lemma succeeded_as_returned_failure t : succeeded (as_returned_failure t) = succeeded t.
Proof.
  unfold as_returned_failure, succeeded.
  destruct (outcome (task_run t)) as [r|e] eqn:E; simpl.
  - rewrite E. reflexivity.
  - reflexivity.
Qed.

Lemma necessary_as_returned_failure t :
  is_necessary (as_returned_failure t) = is_necessary t.
Proof.
  unfold as_returned_failure. destruct (outcome (task_run t)); reflexivity.
Qed.

Lemma tally_as_returned_failure acc tasks :
  tally_of acc (map as_returned_failure tasks) = tally_of acc tasks.
Proof.
  unfold tally_of.
  rewrite !count_map, existsb_map; try reflexivity.
  - intros t. unfold necessary_failure.
    rewrite succeeded_as_returned_failure, necessary_as_returned_failure. reflexivity.
  - intros t. rewrite succeeded_as_returned_failure. reflexivity.
  - apply succeeded_as_returned_failure.
Qed.

Lemma no_necessary_failure tasks :
  existsb necessary_failure tasks = false <->
  (forall t, In t tasks -> truthy (is_necessary t) = true -> succeeded t = true).
Proof.
  split.
  - intros H t Hin Hn.
    destruct (succeeded t) eqn:Hs; [reflexivity|].
    assert (E : existsb necessary_failure tasks = true).
    { apply existsb_exists. exists t. split; [exact Hin|].
      unfold necessary_failure. rewrite Hn, Hs. reflexivity. }
    congruence.
  - intros H. destruct (existsb necessary_failure tasks) eqn:E; [|reflexivity].
    apply existsb_exists in E as (t & Hin & Hf).
    unfold necessary_failure in Hf. apply andb_true_iff in Hf as [Hn Hs].
    rewrite (H t Hin Hn) in Hs. discriminate Hs.
Qed.

(** C5.  A group that has at least one child task returns a dictionary
    whose [completed] and [failed] fields count the children that succeeded
    and those that did not, and whose [status] is ["success"] exactly when
    every necessary child succeeded, so that the failure of a child that is
    not necessary is counted without failing the group.  A child that raised
    an exception or was cancelled weighs as one that returned the status
    ["failed"]: replacing the former by the latter changes nothing in what
    the group returns. *)
Theorem group_status_iff (tasks : list task) :
  tasks <> [] ->
  exists st : string,
    result (finish tasks) =
      Return (YDict
        [("status", YStr st);
         ("completed", YInt (Z.of_nat (length (List.filter succeeded tasks))));
         ("failed",
          YInt (Z.of_nat (length (List.filter (fun t => negb (succeeded t)) tasks))))])
    /\ (st = "success" \/ st = "failed")
    /\ (st = "success" <->
        forall t, In t tasks -> truthy (is_necessary t) = true -> succeeded t = true)
    /\ result (finish (map as_returned_failure tasks)) = result (finish tasks).
Proof.
  intros Hne.
  exists (if existsb necessary_failure tasks then "failed" else "success").
  repeat split.
  - rewrite (finish_nonempty tasks Hne). reflexivity.
  - destruct (existsb necessary_failure tasks); [right | left]; reflexivity.
  - intros H. apply no_necessary_failure.
    destruct (existsb necessary_failure tasks); [discriminate H | reflexivity].
  - intros H. apply no_necessary_failure in H. rewrite H. reflexivity.
  - rewrite (finish_nonempty tasks Hne), finish_nonempty.
    + rewrite tally_as_returned_failure. reflexivity.
    + destruct tasks; [congruence | discriminate].
Qed.

(** The order in which the loop visits [done], a set, does not matter. *)
Lemma finish_order_irrelevant (l1 l2 : list task) :
  Permutation l1 l2 -> result (finish l1) = result (finish l2).
Proof.
  intros P.
  assert (C : forall p : task -> bool,
             length (List.filter p l1) = length (List.filter p l2)).
  { intros p. induction P as [|x l l' _ IH|x y l|l l' l'' _ IH1 _ IH2]; simpl.
    - reflexivity.
    - destruct (p x); simpl; rewrite IH; reflexivity.
    - destruct (p x), (p y); reflexivity.
    - congruence. }
  assert (E : existsb necessary_failure l1 = existsb necessary_failure l2).
  { clear C. induction P as [|x l l' _ IH|x y l|l l' l'' _ IH1 _ IH2]; simpl.
    - reflexivity.
    - rewrite IH. reflexivity.
    - destruct (necessary_failure x), (necessary_failure y); reflexivity.
    - congruence. }
  destruct l1 as [|a l1].
  - apply Permutation_nil in P. subst. reflexivity.
  - destruct l2 as [|b l2]; [symmetry in P; apply Permutation_nil in P; discriminate|].
    rewrite !finish_nonempty by discriminate.
    unfold tally_of. rewrite E, !C. reflexivity.
Qed.

(** The construction of [finish] never calls [cancel()], and the group
    returns no sooner than its slowest child settles. *)
Lemma finish_cancels_nothing tasks : cancel_requests (finish tasks) = [].
Proof.
  destruct tasks as [|t l]; [reflexivity|].
  rewrite finish_nonempty by discriminate. reflexivity.
Qed.

Lemma finish_waits_for_all tasks t :
  In t tasks -> (settles_at (task_run t) <= returns_at (finish tasks))%nat.
Proof.
  intros Hin. rewrite finish_nonempty by (destruct tasks; [destruct Hin | discriminate]).
  simpl. induction tasks as [|a l IH]; [destruct Hin|].
  simpl. destruct Hin as [->|Hin]; [lia|]. specialize (IH Hin). lia.
Qed.

Lemma execute_cancels_nothing process_job_func fuel path job_config pipeline_config g :
  execute process_job_func fuel path job_config pipeline_config = Some g ->
  cancel_requests g = [].
Proof.
  destruct fuel as [|fuel]; cbn [execute]; [discriminate|].
  destruct (py_bind (iter_items _) (job_tasks _ _ _)) as [tasks|e];
    [|intros [= <-]; reflexivity].
  destruct (py_bind (iter_items _) (plan_groups pipeline_config)) as [pg|e];
    [|intros [= <-]; reflexivity].
  destruct (group_tasks _ _ _ _) as [sub|]; [|discriminate].
  intros [= <-]. apply finish_cancels_nothing.
Qed.

(** A group waits for ever for a child group that never returns. *)
Lemma group_tasks_stuck (run : list nat -> list (string * yvalue) -> option group_run)
    planned : forall path created group_name necessary group_config,
  In (group_name, necessary, group_config) planned ->
  (forall p, run p group_config = None) ->
  group_tasks run path created planned = None.
Proof.
  induction planned as [|[[n nec] c] planned IH];
    intros path created group_name necessary group_config Hin Hrun; [destruct Hin|].
  simpl. destruct Hin as [[= -> -> ->]|Hin].
  - rewrite Hrun. reflexivity.
  - rewrite (IH path (S created) _ _ _ Hin Hrun).
    destruct (run (path ++ [created])%list c); reflexivity.
Qed.

(** A group whose construction loops raise nothing and one of whose child
    groups never returns does not return either. *)
Lemma execute_stuck process_job_func fuel path job_config pipeline_config
    tasks planned_groups group_name necessary group_config :
  py_bind (iter_items (get_default "jobs" (YList []) job_config))
          (job_tasks process_job_func path 0) = Return tasks ->
  py_bind (iter_items (get_default "job_groups" (YList []) job_config))
          (plan_groups pipeline_config) = Return planned_groups ->
  In (group_name, necessary, group_config) planned_groups ->
  (forall p, execute process_job_func fuel p group_config pipeline_config = None) ->
  execute process_job_func (S fuel) path job_config pipeline_config = None.
Proof.
  intros Ej Eg Hin Hrun. cbn [execute]. rewrite Ej, Eg.
  rewrite (group_tasks_stuck _ planned_groups path _ group_name necessary group_config
             Hin Hrun).
  reflexivity.
Qed.

(** On a cycle of group references no depth of recursion is enough. *)
Lemma cycle_stuck process_job_func pipeline_config
    (on_cycle : list (string * yvalue) -> Prop) :
  (forall job_config, on_cycle job_config ->
     (forall path, exists tasks,
        py_bind (iter_items (get_default "jobs" (YList []) job_config))
                (job_tasks process_job_func path 0) = Return tasks)
     /\ exists planned_groups group_name necessary group_config,
          py_bind (iter_items (get_default "job_groups" (YList []) job_config))
                  (plan_groups pipeline_config) = Return planned_groups
          /\ In (group_name, necessary, group_config) planned_groups
          /\ on_cycle group_config) ->
  forall fuel path job_config,
    on_cycle job_config ->
    execute process_job_func fuel path job_config pipeline_config = None.
Proof.
  intros H fuel. induction fuel as [|fuel IH]; intros path job_config Hc; [reflexivity|].
  destruct (H job_config Hc) as (Hj & pg & gn & nec & gc & Eg & Hin & Hgc).
  destruct (Hj path) as (tasks & Ej).
  apply (execute_stuck _ _ _ _ _ tasks pg gn nec gc Ej Eg Hin).
  intros p. apply IH, Hgc.
Qed.

(** The group [loop] of the scenarios names itself. *)
Lemma loop_never_returns fuel path :
  execute (Scenario.child Scenario.groups_pipeline) fuel path
          Scenario.loop_group Scenario.groups_pipeline = None.
Proof.
  apply (cycle_stuck _ _ (fun c => c = Scenario.loop_group)); [|reflexivity].
  intros job_config ->. split.
  - intros p. exists []. reflexivity.
  - exists [(YStr "loop", YBool false, Scenario.loop_group)],
           (YStr "loop"), (YBool false), Scenario.loop_group.
    repeat split. left. reflexivity.
Qed.

Lemma group_status_iff_witness :
  exists st : string,
    result (finish Scenario.release_tasks) =
      Return (YDict
        [("status", YStr st);
         ("completed",
          YInt (Z.of_nat (length (List.filter succeeded Scenario.release_tasks))));
         ("failed",
          YInt (Z.of_nat (length (List.filter (fun t => negb (succeeded t))
                                              Scenario.release_tasks))))])
    /\ (st = "success" \/ st = "failed")
    /\ (st = "success" <->
        forall t, In t Scenario.release_tasks ->
                  truthy (is_necessary t) = true -> succeeded t = true)
    /\ result (finish (map as_returned_failure Scenario.release_tasks))
       = result (finish Scenario.release_tasks).
Proof.
  apply (group_status_iff Scenario.release_tasks).
  intros E. vm_compute in E. discriminate E.
Defined.

(** C1.  No group ever cancels a child.  Whatever function makes the
    coroutines and whatever the configuration, a group that returns has
    called [cancel()] on nobody, and a group given tasks returns no sooner
    than the slowest of them settles, a necessary failure among them or not.
    In the scenario of the stalled group, a manifest the parser accepts,
    the necessary child [bad] fails at once beside the child [loop], which
    is not necessary and never settles: the group does not cancel [loop] and
    return, it never returns. *)
Theorem necessary_failure_cancels_nobody :
  (forall process_job_func fuel path job_config pipeline_config g,
     execute process_job_func fuel path job_config pipeline_config = Some g ->
     cancel_requests g = [])
  /\ (forall tasks t,
        In t tasks ->
        cancel_requests (finish tasks) = []
        /\ (settles_at (task_run t) <= returns_at (finish tasks))%nat)
  /\ YAMLParser.parse (Return (YDict Scenario.groups_manifest))
     = Return Scenario.groups_pipeline
  /\ (forall fuel path,
        execute (Scenario.child Scenario.groups_pipeline) (S fuel) path
                Scenario.bad_group Scenario.groups_pipeline
        = Some (raised ValueError))
  /\ (forall fuel path,
        execute (Scenario.child Scenario.groups_pipeline) fuel path
                Scenario.stalled_group Scenario.groups_pipeline
        = None).
Proof.
  split; [exact execute_cancels_nothing|].
  split; [intros tasks t Hin; split;
          [apply finish_cancels_nothing | apply finish_waits_for_all, Hin]|].
  split; [reflexivity|].
  split; [intros fuel path; reflexivity|].
  intros [|fuel] path; [reflexivity|].
  apply (execute_stuck _ _ _ _ _ []
           [(YStr "loop", YBool false, Scenario.loop_group);
            (YStr "bad", YBool true, Scenario.bad_group)]
           (YStr "loop") (YBool false) Scenario.loop_group).
  - reflexivity.
  - reflexivity.
  - left. reflexivity.
  - intros p. apply loop_never_returns.
Qed.

(** A dangling entry of [job_groups] creates no task. *)
Lemma plan_groups_dangling pipeline_config item rest :
  dangling pipeline_config item = true ->
  plan_groups pipeline_config (item :: rest) = plan_groups pipeline_config rest.
Proof.
  unfold dangling. simpl.
  destruct (entry_of item) as [[group_name necessary]|]; [|discriminate].
  destruct (get_job pipeline_config group_name) as [[v|]|e]; try discriminate.
  - destruct v as [| | | | |d|]; try discriminate.
    intros H. simpl. destruct d as [|kv d']; [reflexivity|].
    simpl. apply negb_true_iff in H. rewrite H. reflexivity.
  - reflexivity.
Qed.

Lemma plan_groups_skips pipeline_config item before after :
  dangling pipeline_config item = true ->
  plan_groups pipeline_config (before ++ item :: after) =
  plan_groups pipeline_config (before ++ after).
Proof.
  intros H. induction before as [|x before IH].
  - apply plan_groups_dangling, H.
  - simpl. rewrite IH. reflexivity.
Qed.

(** The group runs as if the dangling entry were not listed, whatever its
    [is_necessary] flag: it adds to neither count. *)
Lemma execute_skips_dangling process_job_func fuel path job_config job_config'
    pipeline_config item before after :
  dict_get "jobs" job_config' = dict_get "jobs" job_config ->
  dict_get "job_groups" job_config = Some (YList (before ++ item :: after)) ->
  dict_get "job_groups" job_config' = Some (YList (before ++ after)) ->
  dangling pipeline_config item = true ->
  execute process_job_func fuel path job_config pipeline_config =
  execute process_job_func fuel path job_config' pipeline_config.
Proof.
  intros Hj Hg Hg' Hd. destruct fuel as [|fuel]; [reflexivity|].
  cbn [execute]. unfold get_default. rewrite Hj, Hg, Hg'. cbn [iter_items py_bind].
  rewrite (plan_groups_skips pipeline_config item before after Hd). reflexivity.
Qed.

(** Whenever [execute] comes to an end, it either raised while building its
    tasks or went through [finish] with the tasks it built. *)
Lemma execute_shape process_job_func fuel path job_config pipeline_config g :
  execute process_job_func fuel path job_config pipeline_config = Some g ->
  (exists e, g = raised e) \/ (exists tasks, g = finish tasks).
Proof.
  destruct fuel as [|fuel]; cbn [execute]; [discriminate|].
  destruct (py_bind (iter_items _) (job_tasks _ _ _)) as [pj|e];
    [|intros [= <-]; left; eexists; reflexivity].
  destruct (py_bind (iter_items _) (plan_groups pipeline_config)) as [pg|e];
    [|intros [= <-]; left; eexists; reflexivity].
  destruct (group_tasks _ _ _ _) as [sub|]; [|discriminate].
  intros [= <-]. right. eexists. reflexivity.
Qed.

(** C10.  A group whose only entry is a dangling reference creates no task;
    [asyncio.wait] is then given an empty list and raises [ValueError], so
    the group returns nothing, for every depth of recursion allowed and
    whatever its children would do. *)
Theorem dangling_only_group_raises
    (process_job_func : list string -> list nat -> yvalue -> py child_run) (fuel : nat) :
  plan_groups Scenario.fanout_pipeline
              [YDict [("name", YStr "ghost"); ("is_necessary", YBool true)]]
  = Return []
  /\ execute process_job_func (S fuel) [] Scenario.fanout_group Scenario.fanout_pipeline
     = Some {| result := Raise ValueError; returns_at := 0; cancel_requests := [] |}.
Proof. split; reflexivity. Qed.

End GroupFacts.

(** ** The step loop *)

Module ProcessorFacts.
Import Logger YAMLParser JobProcessor Scenario.

Section StepLoop.

Context {world : Type}.
Variable now : world -> string * world.
Variable pull_image : yvalue -> world -> bool * world.
Variable execute_step :
  yvalue -> yvalue -> yvalue -> yvalue -> world -> (Z * string) * world.
Variable format : yvalue -> string.

Lemma completion_entries_snoc l e :
  completion_entries (l ++ [e]) =
  (completion_entries l ++ match exit_code e with Some _ => [e] | None => [] end)%list.
Proof.
  unfold completion_entries. rewrite List.filter_app. simpl.
  destruct (exit_code e); reflexivity.
Qed.

Lemma write_entry_spec job_id step_name log_type content code (s : @state world) :
  exists s',
    write_entry now job_id step_name log_type content code s = (Return tt, s')
    /\ completions s' = completions s + match code with Some _ => 1 | None => 0 end.
Proof.
  unfold write_entry. destruct (now (st_world s)) as [ts w].
  eexists. split; [reflexivity|].
  unfold completions. simpl st_log. rewrite completion_entries_snoc.
  rewrite length_app. simpl exit_code. destruct code; simpl; lia.
Qed.

Lemma log_status_spec job_id step_name status (s : @state world) :
  exists s', log_status now job_id step_name status s = (Return tt, s')
             /\ completions s' = completions s.
Proof.
  destruct (write_entry_spec job_id step_name "STATUS" status None s) as (s' & E & C).
  exists s'. split; [exact E | lia].
Qed.

Lemma log_error_spec job_id step_name error (s : @state world) :
  exists s', log_error now job_id step_name error s = (Return tt, s')
             /\ completions s' = completions s.
Proof.
  destruct (write_entry_spec job_id step_name "ERROR" error None s) as (s' & E & C).
  exists s'. split; [exact E | lia].
Qed.

Lemma log_lines_spec job_id step_name lines : forall s : @state world,
  exists s', log_lines now job_id step_name lines s = (Return tt, s')
             /\ completions s' = completions s.
Proof.
  induction lines as [|line lines IH]; intros s; simpl.
  - exists s. split; reflexivity.
  - destruct (negb _).
    + destruct (write_entry_spec job_id step_name "LOG" line None s) as (s1 & E1 & C1).
      destruct (IH s1) as (s2 & E2 & C2).
      exists s2. unfold bind. rewrite E1, E2. split; [reflexivity | lia].
    + apply IH.
Qed.

Lemma log_output_spec job_id step_name text (s : @state world) :
  exists s', log_output now job_id step_name text s = (Return tt, s')
             /\ completions s' = completions s.
Proof. apply log_lines_spec. Qed.

(** A step that reaches the runner writes exactly one completion entry,
    [success] for exit code 0 and [failed] otherwise. *)
Lemma log_step_completion_spec job_id step_name code (s : @state world) :
  exists ts w,
    now (st_world s) = (ts, w) /\
    log_step_completion now job_id step_name code s =
    (Return tt,
     {| st_world := w;
        st_log := (st_log s ++
          [ {| timestamp := ts; job_id := job_id; step_name := step_name;
               log_type := "STATUS";
               content := if code =? 0 then "success" else "failed";
               exit_code := Some code |} ])%list |}).
Proof.
  unfold log_step_completion, write_entry.
  destruct (now (st_world s)) as [ts w]. exists ts, w. split; reflexivity.
Qed.

Lemma log_step_completion_count job_id step_name code (s : @state world) :
  exists s', log_step_completion now job_id step_name code s = (Return tt, s')
             /\ completions s' = completions s + 1.
Proof.
  destruct (write_entry_spec job_id step_name "STATUS"
              (if code =? 0 then "success" else "failed") (Some code) s)
    as (s' & E & C).
  exists s'. split; [exact E | exact C].
Qed.

(** The defect behind C2 and C4, for every environment: when the image of
    a step cannot be acquired, the loop writes the step's STATUS and ERROR
    lines and goes on with the remaining steps. *)
Lemma run_steps_image_failure job_id job_image step rest acc info (s : @state world) :
  extract_step_info step job_image = Return info ->
  (forall w, fst (pull_image (si_image info) w) = false) ->
  exists s',
    completions s' = completions s /\
    run_steps now pull_image execute_step format job_id job_image (step :: rest) acc s =
    run_steps now pull_image execute_step format job_id job_image rest
              {| steps_completed := steps_completed acc;
                 steps_failed := steps_failed acc + 1;
                 job_status := "failed" |} s'.
Proof.
  intros Hi Hp. simpl run_steps. unfold bind at 1. unfold lift. rewrite Hi.
  destruct (log_status_spec job_id (format (si_name info)) "running" s)
    as (s1 & E1 & C1).
  unfold bind at 1. rewrite E1.
  unfold bind at 1. unfold pull_image_m.
  specialize (Hp (st_world s1)).
  destruct (pull_image (si_image info) (st_world s1)) as [ok w]. simpl in Hp. subst ok.
  change (negb false) with true. cbv beta iota.
  set (s2 := {| st_world := w; st_log := st_log s1 |}).
  destruct (log_error_spec job_id (format (si_name info))
              ("Не удалось получить Docker образ: " +:+ format (si_image info)) s2)
    as (s3 & E3 & C3).
  exists s3. split.
  - rewrite C3. unfold completions in *. simpl. exact C1.
  - unfold bind at 1. rewrite E3. reflexivity.
Qed.

(** When every image can be acquired, each step the loop dispatches leaves
    exactly one completion entry in the log. *)
Lemma run_steps_completions job_id job_image steps : forall acc (s : @state world) c s',
  (forall image w, fst (pull_image image w) = true) ->
  run_steps now pull_image execute_step format job_id job_image steps acc s
    = (Return c, s') ->
  completions s' - completions s =
  (steps_completed c - steps_completed acc) + (steps_failed c - steps_failed acc).
Proof.
  induction steps as [|step rest IH]; intros acc s c s' Hp.
  - simpl. intros [= <- <-]. lia.
  - simpl run_steps. unfold bind at 1. unfold lift.
    destruct (extract_step_info step job_image) as [info|e]; [|discriminate].
    destruct (log_status_spec job_id (format (si_name info)) "running" s)
      as (s1 & E1 & C1).
    unfold bind at 1. rewrite E1.
    unfold bind at 1. unfold pull_image_m.
    specialize (Hp (si_image info) (st_world s1)) as Hp1.
    destruct (pull_image (si_image info) (st_world s1)) as [ok w1].
    simpl in Hp1. subst ok. change (negb true) with false. cbv beta iota.
    unfold bind at 1. unfold execute_step_m. simpl st_world.
    destruct (execute_step (si_image info) (si_run info) (si_env info)
                           (si_name info) w1) as [[code logs] w2].
    simpl st_log. simpl fst. simpl snd.
    set (s2 := {| st_world := w2; st_log := st_log s1 |}).
    assert (C2 : completions s2 = completions s1) by reflexivity.
    assert (O : exists s3,
               (if negb (String.eqb logs EmptyString)
                then log_output now job_id (format (si_name info)) logs
                else ret tt) s2 = (Return tt, s3)
               /\ completions s3 = completions s2).
    { destruct (negb _); [apply log_output_spec|].
      exists s2. split; reflexivity. }
    destruct O as (s3 & E3 & C3).
    unfold bind at 1. rewrite E3.
    destruct (log_step_completion_count job_id (format (si_name info)) code s3)
      as (s4 & E4 & C4).
    unfold bind at 1. rewrite E4.
    destruct (code =? 0).
    + intros H. apply IH in H; [|exact Hp]. simpl in H. lia.
    + destruct (log_error_spec job_id (format (si_name info))
                  ("Шаг завершился с ошибкой (exit code: " +:+
                   Str.of_int code +:+ ")") s4) as (s5 & E5 & C5).
      unfold bind at 1. rewrite E5. unfold ret. intros [= <- <-]. simpl. lia.
Qed.

End StepLoop.

(** C2.  The first step of the job names an image that cannot be acquired.
    The step is counted as failed and an ERROR line is written for it, but
    no exit code is recorded for it and the loop goes on: the command of the
    second step is handed to the runner. *)
Theorem image_failure_does_not_stop_job :
  let r := sim_process_job 7 build_pipeline (YStr "build") fresh in
  fst r = Return (YDict [("status", YStr "failed");
                         ("steps_completed", YInt 1);
                         ("steps_failed", YInt 1)])
  /\ ran (st_world (snd r)) = ["echo b"]
  /\ map (fun e => (log_type e, exit_code e))
         (List.filter (fun e => String.eqb (step_name e) "fetch") (st_log (snd r)))
     = [("STATUS", None); ("ERROR", None)].
Proof. vm_compute. repeat split. Qed.

(** C4.  A job of one step whose image cannot be acquired: the step is
    dispatched and counted as failed, and the log holds no step-completion
    line, where the property asks for exactly one. *)
Theorem image_failure_writes_no_completion :
  let r := sim_process_job 7 lint_pipeline (YStr "lint") fresh in
  fst r = Return (YDict [("status", YStr "failed");
                         ("steps_completed", YInt 0);
                         ("steps_failed", YInt 1)])
  /\ map (fun e => (step_name e, log_type e, content e)) (st_log (snd r))
     = [("lint", "STATUS", "running");
        ("check", "STATUS", "running");
        ("check", "ERROR", "Не удалось получить Docker образ: ghost");
        ("lint", "STATUS", "failed")]
  /\ completion_entries (st_log (snd r)) = [].
Proof. vm_compute. repeat split. Qed.

End ProcessorFacts.

(** ** Reading the log *)

Module LoggerFacts.
Import Logger Scenario.

(** C3.  Run 1 succeeds and run 10 fails, both written to one file.  The
    query for run 1 returns every line of the file, those of run 10
    included, and the last status it reports for run 1 is the ["failed"] of
    run 10, although the lines of run 1 alone end in ["success"]. *)
Theorem run_1_query_returns_run_10 :
  get_job_logs (Some (file_text log_of_both_runs)) 1
  = Str.join newline (map _format_log_line log_of_both_runs)
  /\ Str.contains "JOB:10 " (get_job_logs (Some (file_text log_of_both_runs)) 1) = true
  /\ get_job_status (Some (file_text log_of_run_1)) 1 = Some "success"
  /\ get_job_status (Some (file_text log_of_both_runs)) 1 = Some "failed".
Proof. vm_compute. repeat split. Qed.

End LoggerFacts.

(** ** The manifest parser *)

Module ParserFacts.
Import YAMLParser Scenario.

Lemma check_steps_error steps e : check_steps steps = Raise e -> e = ValueError.
Proof.
  induction steps as [|s steps IH]; simpl; [discriminate|].
  destruct s as [| | | | |d|]; try (intros [= <-]; reflexivity).
  destruct (has_key "run" d); [exact IH | intros [= <-]; reflexivity].
Qed.

(** Every rejection is a [ValueError]. *)
Lemma check_job_error cfg e : check_job cfg = Raise e -> e = ValueError.
Proof.
  unfold check_job.
  destruct cfg as [| | | | |jc|]; try (intros [= <-]; reflexivity).
  repeat match goal with
         | |- context [if ?b then _ else _] => destruct b
         end; try discriminate; try (intros [= <-]; reflexivity).
  destruct (dict_get "steps" jc) as [[| | | |steps| |]|];
    try (intros [= <-]; reflexivity).
  destruct (_ || _); [apply check_steps_error | intros [= <-]; reflexivity].
Qed.

Lemma check_jobs_rejects js job_name cfg e :
  In (job_name, cfg) js -> check_job cfg = Raise e ->
  check_jobs js = Raise ValueError.
Proof.
  intros Hin Hc. induction js as [|[n c] js IH]; [destruct Hin|].
  simpl. destruct (check_job c) as [[]|e'] eqn:E.
  - simpl. destruct Hin as [[= -> ->]|Hin]; [congruence | apply IH, Hin].
  - simpl. rewrite (check_job_error c e' E). reflexivity.
Qed.

Lemma check_jobs_accepts js :
  (forall job_name cfg, In (job_name, cfg) js -> check_job cfg = Return tt) ->
  check_jobs js = Return tt.
Proof.
  induction js as [|[n c] js IH]; intros H; [reflexivity|].
  simpl. rewrite (H n c (or_introl eq_refl)). simpl.
  apply IH. intros n' c' Hin. apply (H n' c'). right. exact Hin.
Qed.

(** What the validation asks of a container job whose [steps] is a list. *)
Lemma check_container jc steps :
  container_kind jc = true ->
  dict_get "steps" jc = Some (YList steps) ->
  check_job (YDict jc) =
  if has_key "image" jc || existsb step_has_image steps
  then check_steps steps else Raise ValueError.
Proof.
  unfold container_kind, check_job. intros K Hs.
  apply andb_true_iff in K as [K K3]. apply andb_true_iff in K as [K1 K2].
  apply negb_true_iff in K1, K2, K3. rewrite K1, K2, K3, Hs. reflexivity.
Qed.

(** What the validation asks of a group. *)
Lemma check_group jc :
  eq_str (job_type jc) "job_group" = true ->
  check_job (YDict jc) =
  if has_key "jobs" jc || has_key "job_groups" jc then Return tt else Raise ValueError.
Proof.
  unfold check_job. intros K. destruct (job_type jc) as [| | |s| | |]; try discriminate.
  simpl in K. apply String.eqb_eq in K. subst s. reflexivity.
Qed.

(** C6, as the code has it.  A manifest is rejected when it contains a
    container job that has no [image] key and none of whose steps has one;
    on this rule a container job passes as soon as it has an [image] key or
    one of its steps has one, the validation of the job then being that of
    its steps. *)
Theorem parse_image_rule (jc : list (string * yvalue)) (steps : list yvalue) :
  container_kind jc = true ->
  dict_get "steps" jc = Some (YList steps) ->
  (has_key "image" jc = false -> existsb step_has_image steps = false ->
   forall config nm js job_name,
     dict_get "name" config = Some nm ->
     dict_get "jobs" config = Some (YDict js) ->
     In (job_name, YDict jc) js ->
     parse (Return (YDict config)) = Raise ValueError)
  /\
  (has_key "image" jc || existsb step_has_image steps = true ->
   check_job (YDict jc) = check_steps steps).
Proof.
  intros K Hs. split.
  - intros Hi He config nm js job_name Hn Hj Hin.
    unfold parse. rewrite Hn, Hj.
    rewrite (check_jobs_rejects js job_name (YDict jc) ValueError Hin); [reflexivity|].
    rewrite (check_container jc steps K Hs), Hi, He. reflexivity.
  - intros H. rewrite (check_container jc steps K Hs), H. reflexivity.
Qed.

Lemma parse_image_rule_witness :
  parse (Return (YDict unimaged)) = Raise ValueError
  /\ check_job (YDict half_imaged_job) = check_steps half_imaged_steps.
Proof.
  split.
  - apply (proj1 (parse_image_rule unimaged_job [step [("run", YStr "true")]]
                                   eq_refl eq_refl)
                 eq_refl eq_refl unimaged (YStr "p") [("a", YDict unimaged_job)] "a");
      [reflexivity | reflexivity | left; reflexivity].
  - apply (proj2 (parse_image_rule half_imaged_job half_imaged_steps eq_refl eq_refl)).
    reflexivity.
Defined.

(** The job has no image and its second step has none either, and yet the
    manifest is accepted. *)
Lemma half_imaged_is_accepted :
  has_key "image" half_imaged_job = false
  /\ existsb (fun s => negb (step_has_image s)) half_imaged_steps = true
  /\ parse (Return (YDict half_imaged))
     = Return {| name := YStr "p"; jobs := [("a", YDict half_imaged_job)] |}.
Proof. repeat split. Qed.

(** C7, as the code has it.  The validation of a group looks only for a
    [jobs] or a [job_groups] key; it reads no entry.  A manifest in which
    every group has one of the two keys, and every other job passes its own
    validation, is therefore accepted whatever the entries of its groups
    name, be it a job that does not exist or the group itself. *)
Theorem parse_ignores_group_entries (config : list (string * yvalue))
    (nm : yvalue) (js : list (string * yvalue)) :
  dict_get "name" config = Some nm ->
  dict_get "jobs" config = Some (YDict js) ->
  (forall job_name cfg, In (job_name, cfg) js ->
     (exists jc, cfg = YDict jc
                 /\ eq_str (job_type jc) "job_group" = true
                 /\ has_key "jobs" jc || has_key "job_groups" jc = true)
     \/ check_job cfg = Return tt) ->
  parse (Return (YDict config)) = Return {| name := nm; jobs := js |}.
Proof.
  intros Hn Hj H. unfold parse. rewrite Hn, Hj.
  rewrite check_jobs_accepts; [reflexivity|].
  intros job_name cfg Hin.
  destruct (H job_name cfg Hin) as [(jc & -> & K & Hk)|Hc]; [|exact Hc].
  rewrite (check_group jc K), Hk. reflexivity.
Qed.

Lemma parse_ignores_group_entries_witness :
  parse (Return (YDict knotted)) = Return {| name := YStr "p"; jobs := knotted_jobs |}.
Proof.
  apply (parse_ignores_group_entries knotted (YStr "p") knotted_jobs eq_refl eq_refl).
  intros job_name cfg [[= <- <-]|[]].
  left. eexists. repeat split.
Defined.

(** The group [g] lists itself and a job that is not in the pipeline, and
    the manifest is accepted. *)
Lemma knotted_is_accepted :
  dict_get "nowhere" knotted_jobs = None
  /\ (exists jc, dict_get "g" knotted_jobs = Some (YDict jc)
                 /\ dict_get "job_groups" jc = Some (YList [YStr "g"]))
  /\ parse (Return (YDict knotted)) = Return {| name := YStr "p"; jobs := knotted_jobs |}.
Proof.
  split; [reflexivity|]. split; [|reflexivity].
  eexists. split; reflexivity.
Qed.

End ParserFacts.

(** ** More on the step loop and the dispatcher *)

Module DispatchFacts.
Import Logger YAMLParser JobProcessor ProcessorFacts.

Section Dispatch.

Context {world : Type}.
Variable now : world -> string * world.
Variable pull_image : yvalue -> world -> bool * world.
Variable execute_step :
  yvalue -> yvalue -> yvalue -> yvalue -> world -> (Z * string) * world.
Variable sleep : Z -> world -> world.
Variable format : yvalue -> string.

(** A step whose image is there and whose command exits with a code other
    than 0 is the last one the loop looks at. *)
Lemma run_steps_failing_step job_id job_image step acc info (s : @state world) :
  extract_step_info step job_image = Return info ->
  (forall w, fst (pull_image (si_image info) w) = true) ->
  (forall w, fst (fst (execute_step (si_image info) (si_run info) (si_env info)
                                    (si_name info) w)) <> 0) ->
  exists s', forall rest,
    run_steps now pull_image execute_step format job_id job_image (step :: rest) acc s =
    (Return {| steps_completed := steps_completed acc;
               steps_failed := steps_failed acc + 1;
               job_status := "failed" |}, s').
Proof.
  intros Hi Hp Hx.
  destruct (log_status_spec now job_id (format (si_name info)) "running" s)
    as (s1 & E1 & _).
  specialize (Hp (st_world s1)).
  destruct (pull_image (si_image info) (st_world s1)) as [ok w1] eqn:P.
  simpl in Hp. subst ok.
  specialize (Hx w1).
  destruct (execute_step (si_image info) (si_run info) (si_env info)
                         (si_name info) w1) as [[code logs] w2] eqn:X.
  simpl in Hx.
  set (s2 := {| st_world := w2; st_log := st_log s1 |}).
  assert (O : exists s3,
             (if negb (String.eqb logs EmptyString)
              then log_output now job_id (format (si_name info)) logs
              else ret tt) s2 = (Return tt, s3)).
  { destruct (negb _).
    - destruct (log_output_spec now job_id (format (si_name info)) logs s2)
        as (s3 & E3 & _). exists s3. exact E3.
    - exists s2. reflexivity. }
  destruct O as (s3 & E3).
  destruct (log_step_completion_count now job_id (format (si_name info)) code s3)
    as (s4 & E4 & _).
  destruct (log_error_spec now job_id (format (si_name info))
              ("Шаг завершился с ошибкой (exit code: " +:+
               Str.of_int code +:+ ")") s4) as (s5 & E5 & _).
  exists s5. intros rest.
  simpl run_steps. unfold bind at 1. unfold lift. rewrite Hi.
  unfold bind at 1. rewrite E1.
  unfold bind at 1. unfold pull_image_m. rewrite P.
  change (negb true) with false. cbv beta iota.
  unfold bind at 1. unfold execute_step_m. simpl st_world. rewrite X.
  simpl st_log. simpl fst. simpl snd. fold s2.
  unfold bind at 1. rewrite E3.
  unfold bind at 1. rewrite E4.
  destruct (code =? 0) eqn:Z0; [apply Z.eqb_eq in Z0; contradiction|].
  unfold bind at 1. rewrite E5. reflexivity.
Qed.

(** X1.  When a step's image is there and its command exits with a code
    other than 0, the loop ends with that step: the steps listed after it
    change nothing, neither in the counters nor in the log nor in the world,
    and the job is reported failed with one more failed step. *)
Theorem failing_step_ends_loop job_id job_image step rest acc info (s : @state world) :
  extract_step_info step job_image = Return info ->
  (forall w, fst (pull_image (si_image info) w) = true) ->
  (forall w, fst (fst (execute_step (si_image info) (si_run info) (si_env info)
                                    (si_name info) w)) <> 0) ->
  run_steps now pull_image execute_step format job_id job_image (step :: rest) acc s =
  run_steps now pull_image execute_step format job_id job_image [step] acc s
  /\ fst (run_steps now pull_image execute_step format job_id job_image
                    (step :: rest) acc s)
     = Return {| steps_completed := steps_completed acc;
                 steps_failed := steps_failed acc + 1;
                 job_status := "failed" |}.
Proof.
  intros Hi Hp Hx.
  destruct (run_steps_failing_step job_id job_image step acc info s Hi Hp Hx)
    as (s' & H).
  rewrite (H rest), (H []). split; reflexivity.
Qed.

(** One turn of the loop, by cases: the step has no image to run in, its
    image cannot be acquired, it exits with 0, or it exits with another
    code. *)
Lemma run_steps_cons job_id job_image step rest acc r (s s' : @state world) :
  run_steps now pull_image execute_step format job_id job_image (step :: rest) acc s
    = (r, s') ->
  (exists e, extract_step_info step job_image = Raise e /\ r = Raise e)
  \/ (exists s1,
        run_steps now pull_image execute_step format job_id job_image rest
          {| steps_completed := steps_completed acc;
             steps_failed := steps_failed acc + 1;
             job_status := "failed" |} s1 = (r, s'))
  \/ (exists s1,
        run_steps now pull_image execute_step format job_id job_image rest
          {| steps_completed := steps_completed acc + 1;
             steps_failed := steps_failed acc;
             job_status := job_status acc |} s1 = (r, s'))
  \/ r = Return {| steps_completed := steps_completed acc;
                   steps_failed := steps_failed acc + 1;
                   job_status := "failed" |}.
Proof.
  simpl run_steps. unfold bind at 1. unfold lift.
  destruct (extract_step_info step job_image) as [info|e];
    [|intros [= <- <-]; left; exists e; split; reflexivity].
  destruct (log_status_spec now job_id (format (si_name info)) "running" s)
    as (s1 & E1 & _).
  unfold bind at 1. rewrite E1.
  unfold bind at 1. unfold pull_image_m.
  destruct (pull_image (si_image info) (st_world s1)) as [ok w1].
  destruct ok.
  - change (negb true) with false. cbv beta iota.
    unfold bind at 1. unfold execute_step_m. simpl st_world.
    destruct (execute_step (si_image info) (si_run info) (si_env info)
                           (si_name info) w1) as [[code logs] w2].
    simpl st_log. simpl fst. simpl snd.
    set (s2 := {| st_world := w2; st_log := st_log s1 |}).
    assert (O : exists s3,
               (if negb (String.eqb logs EmptyString)
                then log_output now job_id (format (si_name info)) logs
                else ret tt) s2 = (Return tt, s3)).
    { destruct (negb _).
      - destruct (log_output_spec now job_id (format (si_name info)) logs s2)
          as (s3 & E3 & _). exists s3. exact E3.
      - exists s2. reflexivity. }
    destruct O as (s3 & E3).
    unfold bind at 1. rewrite E3.
    destruct (log_step_completion_count now job_id (format (si_name info)) code s3)
      as (s4 & E4 & _).
    unfold bind at 1. rewrite E4.
    destruct (code =? 0).
    + intros H. right. right. left. exists s4. exact H.
    + destruct (log_error_spec now job_id (format (si_name info))
                  ("Шаг завершился с ошибкой (exit code: " +:+
                   Str.of_int code +:+ ")") s4) as (s5 & E5 & _).
      unfold bind at 1. rewrite E5. unfold ret. intros [= <- <-].
      right. right. right. reflexivity.
  - change (negb false) with true. cbv beta iota.
    set (s2 := {| st_world := w1; st_log := st_log s1 |}).
    destruct (log_error_spec now job_id (format (si_name info))
                ("Не удалось получить Docker образ: " +:+ format (si_image info)) s2)
      as (s3 & E3 & _).
    unfold bind at 1. rewrite E3. intros H. right. left. exists s3. exact H.
Qed.

(** What the loop does to the counters, from any starting point. *)
Lemma run_steps_counters job_id job_image steps :
  forall acc (s s' : @state world) c,
  run_steps now pull_image execute_step format job_id job_image steps acc s
    = (Return c, s') ->
  steps_completed acc <= steps_completed c
  /\ steps_failed acc <= steps_failed c
  /\ (steps_completed c - steps_completed acc) + (steps_failed c - steps_failed acc)
     <= Z.of_nat (length steps)
  /\ (steps_failed c = steps_failed acc ->
      job_status c = job_status acc
      /\ steps_completed c - steps_completed acc = Z.of_nat (length steps))
  /\ (steps_failed acc < steps_failed c -> job_status c = "failed").
Proof.
  induction steps as [|step rest IH]; intros acc s s' c H.
  - simpl in H. injection H as <- <-. simpl. repeat split; lia.
  - apply run_steps_cons in H.
    destruct H as [(e & _ & H)|[(s1 & H)|[(s1 & H)|H]]].
    + discriminate H.
    + apply IH in H. simpl in H. destruct H as (H1 & H2 & H3 & H4 & H5).
      simpl length. rewrite Nat2Z.inj_succ.
      split; [lia|]. split; [lia|]. split; [lia|]. split.
      * intros E. lia.
      * intros _.
        assert (D : steps_failed c = steps_failed acc + 1
                    \/ steps_failed acc + 1 < steps_failed c) by lia.
        destruct D as [D|D]; [apply H4, D | apply H5, D].
    + apply IH in H. simpl in H. destruct H as (H1 & H2 & H3 & H4 & H5).
      simpl length. rewrite Nat2Z.inj_succ.
      split; [lia|]. split; [lia|]. split; [lia|]. split.
      * intros E. destruct (H4 E) as [St Co]. split; [exact St | lia].
      * exact H5.
    + injection H as ->. simpl. rewrite Nat2Z.inj_succ.
      split; [lia|]. split; [lia|]. split; [lia|]. split.
      * intros E. lia.
      * intros _. reflexivity.
Qed.

(** X2.  Counting from zero, the loop reports the status [success] exactly
    when no step failed, and then every step of the job was run to exit
    code 0; in all cases the steps counted are no more than the steps
    listed. *)
Theorem run_steps_success_iff job_id job_image steps (s s' : @state world) c :
  run_steps now pull_image execute_step format job_id job_image steps
            {| steps_completed := 0; steps_failed := 0; job_status := "success" |} s
    = (Return c, s') ->
  (job_status c = "success" <-> steps_failed c = 0)
  /\ (job_status c = "success" -> steps_completed c = Z.of_nat (length steps))
  /\ 0 <= steps_completed c /\ 0 <= steps_failed c
  /\ steps_completed c + steps_failed c <= Z.of_nat (length steps).
Proof.
  intros H. apply run_steps_counters in H. simpl in H.
  destruct H as (H1 & H2 & H3 & H4 & H5).
  assert (D : steps_failed c = 0 \/ 0 < steps_failed c) by lia.
  destruct D as [D|D].
  - destruct (H4 D) as [St Co]. rewrite St.
    repeat split; try lia; intros; lia.
  - specialize (H5 D). rewrite H5.
    repeat split; try lia; try discriminate.
Qed.

(** X3.  The parser lets through a container job that has an image and an
    empty list of steps; the dispatcher then fails it at once: it writes one
    ERROR line under the step name [orchestrator], no STATUS line, hands
    nothing to the runner and returns the status [failed] with both counters
    at zero. *)
Theorem empty_steps_pass_parser_fail_run
    (confirmation_execute :
       option (Z -> yvalue -> list (string * yvalue) -> yvalue -> yvalue -> @M world yvalue))
    (group_execute : Z -> yvalue -> list (string * yvalue) -> PipelineConfig -> @M world yvalue)
    job_id pipeline_config job_name jc chat_id message_id (s : @state world) :
  dict_get job_name (jobs pipeline_config) = Some (YDict jc) ->
  container_kind jc = true ->
  has_key "image" jc = true ->
  dict_get "steps" jc = Some (YList []) ->
  check_job (YDict jc) = Return tt
  /\ process_job now pull_image execute_step sleep format confirmation_execute
                 group_execute job_id pipeline_config (YStr job_name)
                 chat_id message_id s
     = (Return (YDict [("status", YStr "failed"); ("steps_completed", YInt 0);
                       ("steps_failed", YInt 0);
                       ("error", YStr "Job не содержит steps")]),
        {| st_world := snd (now (st_world s));
           st_log := st_log s ++
             [ {| timestamp := fst (now (st_world s)); job_id := job_id;
                  step_name := "orchestrator"; log_type := "ERROR";
                  content := "Job '" +:+ format (YStr job_name) +:+ "' не содержит steps";
                  exit_code := None |} ] |}).
Proof.
  intros Hj K Hi Hs. split.
  - unfold check_job. unfold container_kind in K.
    apply andb_true_iff in K as [K K3]. apply andb_true_iff in K as [K1 K2].
    apply negb_true_iff in K1, K2, K3. rewrite K1, K2, K3, Hs, Hi. reflexivity.
  - unfold process_job. unfold bind at 1. unfold lift, get_job. rewrite Hj.
    assert (T : truthy (YDict jc) = true).
    { destruct jc; [discriminate Hs | reflexivity]. }
    rewrite T. change (negb true) with false. cbv beta iota.
    unfold container_kind, job_type in K.
    apply andb_true_iff in K as [K K3]. apply andb_true_iff in K as [K1 K2].
    apply negb_true_iff in K1, K2, K3. rewrite K1, K2, K3.
    assert (G : get_default "steps" (YList []) jc = YList []).
    { unfold get_default. rewrite Hs. reflexivity. }
    rewrite G. change (negb (truthy (YList []))) with true. cbv beta iota.
    unfold bind, log_error, write_entry, ret.
    destruct (now (st_world s)) as [ts w]. reflexivity.
Qed.

Lemma split_on_absent sep m text :
  Str.all_chars (fun c => negb (Ascii.eqb c sep)) text = true ->
  Str.split_on sep m text = [text].
Proof.
  induction text as [|c r IH]; simpl; [reflexivity|].
  intros H. apply andb_true_iff in H as [Hc Hr]. apply negb_true_iff in Hc.
  rewrite Hc, (IH Hr). reflexivity.
Qed.

(** A string strips to nothing exactly when it is made of whitespace. *)
Lemma strip_blank text :
  String.eqb (Str.strip text) EmptyString = Str.all_chars Str.is_space text.
Proof.
  unfold Str.strip. induction text as [|c r IH]; [reflexivity|].
  simpl. destruct (Str.is_space c) eqn:Hc; [exact IH|].
  simpl. rewrite Hc. destruct (Str.rstrip r); reflexivity.
Qed.




End Dispatch.

(** What [int] makes of some durations: blanks around a numeral are
    skipped, a separator of code 28 is not; a float is cut towards zero. *)
Lemma int_of_value_examples :
  int_of_value (YStr " 60 ") = Return 60
  /\ int_of_value (YStr ("8" +:+ String (ascii_of_nat 28) EmptyString)) = Raise ValueError
  /\ int_of_value (YFloat (S754_finite true 3 (-1))) = Return (-1)
  /\ int_of_value (YFloat (S754_infinity false)) = Raise OverflowError
  /\ int_of_value (YFloat S754_nan) = Raise ValueError
  /\ int_of_value YNone = Raise TypeError.
Proof. repeat split; reflexivity. Qed.

End DispatchFacts.

(** ** The storage of pipelines and subscriptions *)

Module StorageFacts.
Import PipelineStorage.

Lemma chat_key_inj a b : chat_key a = chat_key b -> a = b.
Proof.
  unfold chat_key. intros H.
  pose proof (StrFacts.int_of_int a) as Ha. rewrite H, StrFacts.int_of_int in Ha.
  congruence.
Qed.

Lemma chat_key_ne a b : a <> b -> chat_key a <> chat_key b.
Proof. intros H E. apply H, chat_key_inj, E. Qed.

Lemma same_pair_cases chat_id chat_id' pipeline_name pipeline_name' :
  (same_pair chat_id chat_id' pipeline_name pipeline_name' = true
   /\ chat_id' = chat_id /\ pipeline_name' = pipeline_name)
  \/ (same_pair chat_id chat_id' pipeline_name pipeline_name' = false
      /\ chat_id' = chat_id /\ pipeline_name' <> pipeline_name)
  \/ (same_pair chat_id chat_id' pipeline_name pipeline_name' = false
      /\ chat_id' <> chat_id).
Proof.
  unfold same_pair.
  destruct (Z.eqb_spec chat_id' chat_id) as [->|Hc];
    [|right; right; split; [reflexivity | exact Hc]].
  destruct (String.eqb_spec pipeline_name' pipeline_name) as [->|Hp].
  - left. repeat split.
  - right. left. repeat split. exact Hp.
Qed.

(** X5.  After [subscribe_chat], the subscription of that chat to that
    pipeline holds the given message id and no job id, whatever was stored
    for the pair before, and the subscription of every other pair of chat
    and pipeline reads as it did. *)
Theorem subscribe_chat_lookup (chat_id : Z) (pipeline_name : string) (message_id : Z)
    (f : files) (chat_id' : Z) (pipeline_name' : string) :
  get_subscription_info chat_id' pipeline_name'
                        (subscribe_chat chat_id pipeline_name message_id f)
  = if same_pair chat_id chat_id' pipeline_name pipeline_name'
    then Some {[ "message_id" := YInt message_id; "job_id" := YNone ]}
    else get_subscription_info chat_id' pipeline_name' f.
Proof.
  unfold get_subscription_info, subscribe_chat, _load_subscriptions, _save_subscriptions.
  simpl.
  destruct (same_pair_cases chat_id chat_id' pipeline_name pipeline_name')
    as [(-> & -> & ->)|[(-> & -> & Hp)|(-> & Hc)]].
  - rewrite lookup_insert_eq, lookup_insert_eq. reflexivity.
  - rewrite lookup_insert_eq, lookup_insert_ne by congruence.
    destruct (default ∅ (subscriptions_file f) !! chat_key chat_id); [reflexivity|].
    apply lookup_empty.
  - rewrite lookup_insert_ne by (apply not_eq_sym, chat_key_ne, Hc). reflexivity.
Qed.

(** X6.  After [unsubscribe_chat], the chat has no subscription to the
    pipeline, every other pair reads as it did, and a chat whose last
    subscription was removed is gone from the table of all subscriptions. *)
Theorem unsubscribe_chat_lookup (chat_id : Z) (pipeline_name : string) (f : files)
    (chat_id' : Z) (pipeline_name' : string) :
  get_subscription_info chat_id' pipeline_name' (unsubscribe_chat chat_id pipeline_name f)
  = (if same_pair chat_id chat_id' pipeline_name pipeline_name'
     then None
     else get_subscription_info chat_id' pipeline_name' f)
  /\ get_all_subscriptions (unsubscribe_chat chat_id pipeline_name f) !! chat_key chat_id
     <> Some ∅.
Proof.
  unfold get_subscription_info, get_all_subscriptions, unsubscribe_chat,
    _load_subscriptions, _save_subscriptions.
  set (subs := default ∅ (subscriptions_file f)).
  destruct (subs !! chat_key chat_id) as [chat|] eqn:E.
  - destruct (Nat.eqb_spec (size (delete pipeline_name chat)) 0) as [Z0|NZ]; simpl.
    + apply map_size_empty_iff in Z0.
      split; [|rewrite lookup_delete_eq; discriminate].
      destruct (same_pair_cases chat_id chat_id' pipeline_name pipeline_name')
        as [(-> & -> & ->)|[(-> & -> & Hp)|(-> & Hc)]].
      * rewrite lookup_delete_eq. reflexivity.
      * rewrite lookup_delete_eq, E.
        rewrite <- (lookup_delete_ne chat pipeline_name pipeline_name') by congruence.
        rewrite Z0. symmetry. apply lookup_empty.
      * rewrite lookup_delete_ne by (apply not_eq_sym, chat_key_ne, Hc). reflexivity.
    + split.
      * destruct (same_pair_cases chat_id chat_id' pipeline_name pipeline_name')
          as [(-> & -> & ->)|[(-> & -> & Hp)|(-> & Hc)]].
        -- rewrite lookup_insert_eq. apply lookup_delete_eq.
        -- rewrite lookup_insert_eq, E. apply lookup_delete_ne. congruence.
        -- rewrite lookup_insert_ne by (apply not_eq_sym, chat_key_ne, Hc). reflexivity.
      * rewrite lookup_insert_eq. intros [= H]. apply NZ.
        rewrite H. apply map_size_empty.
  - simpl. fold subs. split.
    + destruct (same_pair_cases chat_id chat_id' pipeline_name pipeline_name')
        as [(-> & -> & ->)|[(-> & -> & Hp)|(-> & Hc)]]; try reflexivity.
      rewrite E. reflexivity.
    + rewrite E. discriminate.
Qed.

(** X7.  [update_subscription_job] stores the job id in the subscription of
    the pair and keeps its other fields; every other pair reads as it did.
    For a pair that is not subscribed it writes nothing at all: the files
    are left exactly as they were. *)
Theorem update_subscription_job_lookup (chat_id : Z) (pipeline_name : string)
    (job_id : Z) (f : files) (chat_id' : Z) (pipeline_name' : string) :
  get_subscription_info chat_id' pipeline_name'
                        (update_subscription_job chat_id pipeline_name job_id f)
  = (if same_pair chat_id chat_id' pipeline_name pipeline_name'
     then <["job_id" := YInt job_id]> <$> get_subscription_info chat_id pipeline_name f
     else get_subscription_info chat_id' pipeline_name' f)
  /\ (get_subscription_info chat_id pipeline_name f = None ->
      update_subscription_job chat_id pipeline_name job_id f = f).
Proof.
  unfold get_subscription_info, update_subscription_job,
    _load_subscriptions, _save_subscriptions.
  set (subs := default ∅ (subscriptions_file f)).
  destruct (subs !! chat_key chat_id) as [chat|] eqn:E.
  - destruct (chat !! pipeline_name) as [info|] eqn:I.
    + split; [|discriminate]. simpl.
      destruct (same_pair_cases chat_id chat_id' pipeline_name pipeline_name')
        as [(-> & -> & ->)|[(-> & -> & Hp)|(-> & Hc)]].
      * rewrite !lookup_insert_eq. reflexivity.
      * rewrite lookup_insert_eq, E. apply lookup_insert_ne. congruence.
      * rewrite lookup_insert_ne by (apply not_eq_sym, chat_key_ne, Hc). reflexivity.
    + split; [|reflexivity]. fold subs.
      destruct (same_pair_cases chat_id chat_id' pipeline_name pipeline_name')
        as [(-> & -> & ->)|[(-> & -> & Hp)|(-> & Hc)]]; try reflexivity.
      rewrite E, I. reflexivity.
  - split; [|reflexivity]. fold subs.
    destruct (same_pair_cases chat_id chat_id' pipeline_name pipeline_name')
      as [(-> & -> & ->)|[(-> & -> & Hp)|(-> & Hc)]]; try reflexivity.
    rewrite E. reflexivity.
Qed.

Lemma update_subscription_job_lookup_witness :
  update_subscription_job 5 "deploy.yaml" 3
    {| pipelines_file := None; subscriptions_file := None |}
  = {| pipelines_file := None; subscriptions_file := None |}.
Proof.
  apply (proj2 (update_subscription_job_lookup 5 "deploy.yaml" 3
                  {| pipelines_file := None; subscriptions_file := None |}
                  5 "deploy.yaml")).
  reflexivity.
Defined.

Lemma subscribe_keeps_chats_inhabited chat_id pipeline_name message_id f :
  no_empty_chat f -> no_empty_chat (subscribe_chat chat_id pipeline_name message_id f).
Proof.
  unfold no_empty_chat, subscribe_chat, _load_subscriptions, _save_subscriptions.
  simpl. intros H key chat.
  destruct (decide (chat_key chat_id = key)) as [<-|Hk].
  - rewrite lookup_insert_eq. intros [= <-]. apply insert_non_empty.
  - rewrite lookup_insert_ne by exact Hk. apply H.
Qed.

Lemma unsubscribe_keeps_chats_inhabited chat_id pipeline_name f :
  no_empty_chat f -> no_empty_chat (unsubscribe_chat chat_id pipeline_name f).
Proof.
  unfold no_empty_chat, unsubscribe_chat, _load_subscriptions, _save_subscriptions.
  set (subs := default ∅ (subscriptions_file f)).
  intros H key chat.
  destruct (subs !! chat_key chat_id) as [old|] eqn:E; [|simpl; apply H].
  destruct (Nat.eqb_spec (size (delete pipeline_name old)) 0) as [Z0|NZ]; simpl.
  - destruct (decide (chat_key chat_id = key)) as [<-|Hk].
    + rewrite lookup_delete_eq. discriminate.
    + rewrite lookup_delete_ne by exact Hk. apply H.
  - destruct (decide (chat_key chat_id = key)) as [<-|Hk].
    + rewrite lookup_insert_eq. intros [= <-] Hempty. apply NZ.
      rewrite Hempty. apply map_size_empty.
    + rewrite lookup_insert_ne by exact Hk. apply H.
Qed.

Lemma update_job_keeps_chats_inhabited chat_id pipeline_name job_id f :
  no_empty_chat f -> no_empty_chat (update_subscription_job chat_id pipeline_name job_id f).
Proof.
  unfold no_empty_chat, update_subscription_job, _load_subscriptions, _save_subscriptions.
  set (subs := default ∅ (subscriptions_file f)).
  intros H key chat.
  destruct (subs !! chat_key chat_id) as [old|] eqn:E; [|apply H].
  destruct (old !! pipeline_name) as [info|] eqn:I; [|apply H]. simpl.
  destruct (decide (chat_key chat_id = key)) as [<-|Hk].
  - rewrite lookup_insert_eq. intros [= <-]. apply insert_non_empty.
  - rewrite lookup_insert_ne by exact Hk. apply H.
Qed.

(** X8.  The three operations that write the subscriptions keep the table
    free of chats with an empty dictionary: if no chat has one before, none
    has one after subscribing, unsubscribing or recording a job id. *)
Theorem subscriptions_stay_inhabited (f : files) :
  no_empty_chat f ->
  forall chat_id pipeline_name message_id job_id,
    no_empty_chat (subscribe_chat chat_id pipeline_name message_id f)
    /\ no_empty_chat (unsubscribe_chat chat_id pipeline_name f)
    /\ no_empty_chat (update_subscription_job chat_id pipeline_name job_id f).
Proof.
  intros H chat_id pipeline_name message_id job_id. repeat split.
  - apply subscribe_keeps_chats_inhabited, H.
  - apply unsubscribe_keeps_chats_inhabited, H.
  - apply update_job_keeps_chats_inhabited, H.
Qed.

Lemma no_files_no_empty_chat :
  no_empty_chat {| pipelines_file := None; subscriptions_file := None |}.
Proof. intros key chat. unfold _load_subscriptions. simpl. rewrite lookup_empty. discriminate. Qed.

Lemma subscriptions_stay_inhabited_witness :
  no_empty_chat (subscribe_chat 5 "deploy.yaml" 77
                   {| pipelines_file := None; subscriptions_file := None |})
  /\ no_empty_chat (unsubscribe_chat 5 "deploy.yaml"
                   {| pipelines_file := None; subscriptions_file := None |})
  /\ no_empty_chat (update_subscription_job 5 "deploy.yaml" 3
                   {| pipelines_file := None; subscriptions_file := None |}).
Proof.
  apply (subscriptions_stay_inhabited
           {| pipelines_file := None; subscriptions_file := None |}
           no_files_no_empty_chat 5 "deploy.yaml" 77 3).
Defined.

(** X9.  After [set_auto_run], the information of the pipeline has the
    given [auto_run] flag and keeps its other fields; a pipeline that was
    unknown gets an entry holding the flag alone; every other pipeline
    reads as it did. *)
Theorem set_auto_run_lookup (pipeline_name : string) (auto_run : bool) (f : files)
    (pipeline_name' : string) :
  get_pipeline_info pipeline_name' (set_auto_run pipeline_name auto_run f)
  = if String.eqb pipeline_name' pipeline_name
    then <["auto_run" := YBool auto_run]>
           (default ∅ (_load_pipelines f !! pipeline_name))
    else get_pipeline_info pipeline_name' f.
Proof.
  unfold get_pipeline_info, set_auto_run, _load_pipelines, _save_pipelines. simpl.
  destruct (String.eqb_spec pipeline_name' pipeline_name) as [->|Hp].
  - rewrite lookup_insert_eq. reflexivity.
  - rewrite lookup_insert_ne by congruence. reflexivity.
Qed.

(** X10.  [update_pipelines] replaces the information of every pipeline it
    is given, whole, and keeps that of the others: what was stored for a
    pipeline before, its [auto_run] flag included, does not survive an
    update that names the pipeline. *)
Theorem update_pipelines_lookup (pipelines : gmap string (gmap string yvalue))
    (f : files) (pipeline_name : string) :
  get_pipeline_info pipeline_name (update_pipelines pipelines f)
  = match pipelines !! pipeline_name with
    | Some info => info
    | None => get_pipeline_info pipeline_name f
    end.
Proof.
  unfold get_pipeline_info, update_pipelines, _load_pipelines, _save_pipelines. simpl.
  rewrite lookup_union.
  destruct (pipelines !! pipeline_name) as [info|];
    destruct (default ∅ (pipelines_file f) !! pipeline_name); reflexivity.
Qed.

End StorageFacts.

(** ** The run over the jobs of a pipeline *)

Module PipelineRunFacts.
Import JobProcessor PipelineRun.

Section Run.

Context {world : Type}.
Variable run_job : string -> @M world yvalue.

(** Jobs that all succeed leave the loop where it would be had it started
    after them. *)
Lemma run_jobs_app before : forall after acc t (s s1 : @state world),
  run_jobs run_job before acc s = (Done t, s1) ->
  jobs_failed t = jobs_failed acc ->
  run_jobs run_job (before ++ after) acc s = run_jobs run_job after t s1.
Proof.
  induction before as [|job_name before IH]; intros after acc t s s1 H Hf.
  - simpl in H. injection H as <- <-. reflexivity.
  - simpl in H |- *.
    destruct (run_job job_name s) as [[r|e] s0]; [|discriminate].
    destruct (subscript "status" r) as [st|f]; [|discriminate].
    destruct (eq_str st "success").
    + apply IH; [exact H | exact Hf].
    + injection H as <- <-. simpl in Hf. lia.
Qed.

Lemma run_jobs_counters names : forall acc t (s s' : @state world),
  run_jobs run_job names acc s = (Done t, s') ->
  (jobs_failed t = jobs_failed acc
   /\ pipeline_status t = pipeline_status acc
   /\ jobs_completed t = jobs_completed acc + Z.of_nat (length names))
  \/ (jobs_failed t = jobs_failed acc + 1
      /\ pipeline_status t = "failed"
      /\ jobs_completed acc <= jobs_completed t
         < jobs_completed acc + Z.of_nat (length names)).
Proof.
  induction names as [|job_name names IH]; intros acc t s s' H.
  - simpl in H. injection H as <- <-. left. simpl. repeat split; try reflexivity; lia.
  - simpl in H.
    destruct (run_job job_name s) as [[r|e] s0]; [|discriminate].
    destruct (subscript "status" r) as [st|f]; [|discriminate].
    simpl length. rewrite Nat2Z.inj_succ.
    destruct (eq_str st "success").
    + apply IH in H. simpl in H.
      destruct H as [(H1 & H2 & H3)|(H1 & H2 & H3)]; [left | right];
        repeat split; try assumption; lia.
    + injection H as <- <-. right. simpl. repeat split; try reflexivity; lia.
Qed.

(** X11.  The run over the jobs ends with the first job whose result does
    not have the status [success]: when the jobs before it all succeed, the
    run returns in the state that job left, with that one job counted as
    failed and the status [failed], whatever jobs are listed after it. *)
Theorem first_failed_job_ends_run before job_name after acc t r st
    (s s1 s2 : @state world) :
  run_jobs run_job before acc s = (Done t, s1) ->
  jobs_failed t = jobs_failed acc ->
  run_job job_name s1 = (Return r, s2) ->
  subscript "status" r = Done st ->
  eq_str st "success" = false ->
  run_jobs run_job (before ++ job_name :: after) acc s
  = (Done {| jobs_completed := jobs_completed t;
             jobs_failed := jobs_failed t + 1;
             pipeline_status := "failed" |}, s2).
Proof.
  intros Hb Hf Hr Hs He.
  rewrite (run_jobs_app before (job_name :: after) acc t s s1 Hb Hf).
  simpl. rewrite Hr, Hs, He. reflexivity.
Qed.

End Run.

Section Report.

Context {world : Type}.
Variable now : world -> string * world.
Variable pull_image : yvalue -> world -> bool * world.
Variable execute_step :
  yvalue -> yvalue -> yvalue -> yvalue -> world -> (Z * string) * world.
Variable sleep : Z -> world -> world.
Variable format : yvalue -> string.
Variable confirmation_execute :
  option (Z -> yvalue -> list (string * yvalue) -> yvalue -> yvalue -> @M world yvalue).
Variable group_execute :
  Z -> yvalue -> list (string * yvalue) -> PipelineConfig -> @M world yvalue.

(** X12.  When the run of a pipeline that has jobs returns, its report is
    one of two: the status [success] with no failed job and every job
    completed, or the status [failed] with exactly one failed job and fewer
    completed jobs than the pipeline has. *)
Theorem process_pipeline_report job_id pipeline_config chat_id message_id
    (s s' : @state world) report :
  list_jobs pipeline_config <> [] ->
  process_pipeline now pull_image execute_step sleep format confirmation_execute
                   group_execute job_id pipeline_config chat_id message_id s
    = (Done report, s') ->
  exists completed,
    (report = YDict [("status", YStr "success");
                     ("jobs_completed", YInt completed);
                     ("jobs_failed", YInt 0)]
     /\ completed = Z.of_nat (length (list_jobs pipeline_config)))
    \/ (report = YDict [("status", YStr "failed");
                        ("jobs_completed", YInt completed);
                        ("jobs_failed", YInt 1)]
        /\ 0 <= completed < Z.of_nat (length (list_jobs pipeline_config))).
Proof.
  intros Hne. unfold process_pipeline, process_names.
  destruct (list_jobs pipeline_config) as [|n names] eqn:L; [congruence|].
  destruct (run_jobs _ (n :: names) _ s) as [[t|f] s0] eqn:R; [|discriminate].
  intros [= <- <-]. apply run_jobs_counters in R.
  cbn [jobs_completed jobs_failed pipeline_status] in R.
  exists (jobs_completed t). unfold PipelineRun.report.
  destruct R as [(H1 & H2 & H3)|(H1 & H2 & H3)].
  - left. rewrite H1, H2. split; [reflexivity | lia].
  - right. rewrite H1, H2. split; [reflexivity | lia].
Qed.

(** X13.  The parser accepts a manifest whose [jobs] mapping is empty; the
    run of such a pipeline fails at once: one ERROR line under run id and
    step name [orchestrator], the status [failed], both counters at zero. *)
Theorem empty_pipeline_passes_parser_fails_run job_id config nm chat_id message_id
    (s : @state world) :
  dict_get "name" config = Some nm ->
  dict_get "jobs" config = Some (YDict []) ->
  YAMLParser.parse (Return (YDict config)) = Return {| name := nm; jobs := [] |}
  /\ process_pipeline now pull_image execute_step sleep format confirmation_execute
                      group_execute job_id {| name := nm; jobs := [] |}
                      chat_id message_id s
     = (Done (YDict [("status", YStr "failed"); ("jobs_completed", YInt 0);
                     ("jobs_failed", YInt 0);
                     ("error", YStr "Пайплайн не содержит jobs")]),
        {| st_world := snd (now (st_world s));
           st_log := st_log s ++
             [ {| Logger.timestamp := fst (now (st_world s));
                  Logger.job_id := job_id;
                  Logger.step_name := "orchestrator";
                  Logger.log_type := "ERROR";
                  Logger.content := "Пайплайн не содержит jobs";
                  Logger.exit_code := None |} ] |}).
Proof.
  intros Hn Hj. split.
  - unfold YAMLParser.parse. rewrite Hn, Hj. reflexivity.
  - unfold process_pipeline, process_names, list_jobs. simpl.
    unfold log_error, write_entry. destruct (now (st_world s)) as [ts w]. reflexivity.
Qed.

End Report.
End PipelineRunFacts.

(** ** The properties above, on the cases *)

Module CaseFacts.
Import JobProcessor Scenario Cases.

Lemma failing_step_ends_loop_witness :
  sim_run_steps 1 (YStr "alpine") (failing_step :: [passing_step]) zero fresh =
  sim_run_steps 1 (YStr "alpine") [failing_step] zero fresh
  /\ fst (sim_run_steps 1 (YStr "alpine") (failing_step :: [passing_step]) zero fresh)
     = Return {| steps_completed := steps_completed zero;
                 steps_failed := steps_failed zero + 1;
                 job_status := "failed" |}.
Proof.
  apply (DispatchFacts.failing_step_ends_loop sim_now sim_pull sim_exec fmt 1
           (YStr "alpine") failing_step [passing_step] zero failing_step_info fresh).
  - reflexivity.
  - intros w. reflexivity.
  - intros w. simpl. discriminate.
Defined.

Lemma run_steps_success_iff_witness :
  let c := {| steps_completed := 1; steps_failed := 1; job_status := "failed" |} in
  (job_status c = "success" <-> steps_failed c = 0)
  /\ (job_status c = "success" -> steps_completed c = Z.of_nat (length build_steps))
  /\ 0 <= steps_completed c /\ 0 <= steps_failed c
  /\ steps_completed c + steps_failed c <= Z.of_nat (length build_steps).
Proof.
  apply (DispatchFacts.run_steps_success_iff sim_now sim_pull sim_exec fmt 7 YNone
           build_steps fresh
           (snd (sim_run_steps 7 YNone build_steps zero fresh))).
  vm_compute. reflexivity.
Defined.

Lemma empty_steps_pass_parser_fail_run_witness :
  YAMLParser.check_job (YDict idle_job) = Return tt
  /\ fst (sim_process_job 1 idle_pipeline (YStr "idle") fresh)
     = Return (YDict [("status", YStr "failed"); ("steps_completed", YInt 0);
                      ("steps_failed", YInt 0);
                      ("error", YStr "Job не содержит steps")]).
Proof.
  destruct (DispatchFacts.empty_steps_pass_parser_fail_run
              sim_now sim_pull sim_exec sim_sleep fmt None no_group
              1 idle_pipeline "idle" idle_job YNone YNone fresh
              eq_refl eq_refl eq_refl eq_refl) as [H1 H2].
  split; [exact H1|]. unfold sim_process_job. rewrite H2. reflexivity.
Defined.

Lemma first_failed_job_ends_run_witness :
  PipelineRun.run_jobs sim_run_job (["good"] ++ "bad" :: ["good"])
    {| PipelineRun.jobs_completed := 0; PipelineRun.jobs_failed := 0;
       PipelineRun.pipeline_status := "success" |} fresh
  = (PipelineRun.Done {| PipelineRun.jobs_completed := 1;
                         PipelineRun.jobs_failed := 0 + 1;
                         PipelineRun.pipeline_status := "failed" |},
     snd (sim_run_job "bad" (snd (sim_run_job "good" fresh)))).
Proof.
  apply (PipelineRunFacts.first_failed_job_ends_run sim_run_job ["good"] "bad" ["good"]
           {| PipelineRun.jobs_completed := 0; PipelineRun.jobs_failed := 0;
              PipelineRun.pipeline_status := "success" |}
           {| PipelineRun.jobs_completed := 1; PipelineRun.jobs_failed := 0;
              PipelineRun.pipeline_status := "success" |}
           (YDict [("status", YStr "failed"); ("steps_completed", YInt 0);
                   ("steps_failed", YInt 1)])
           (YStr "failed")
           fresh (snd (sim_run_job "good" fresh))).
  - vm_compute. reflexivity.
  - reflexivity.
  - vm_compute. reflexivity.
  - reflexivity.
  - reflexivity.
Defined.

Lemma process_pipeline_report_witness :
  exists completed,
    (YDict [("status", YStr "failed"); ("jobs_completed", YInt 1);
            ("jobs_failed", YInt 1)]
     = YDict [("status", YStr "success"); ("jobs_completed", YInt completed);
              ("jobs_failed", YInt 0)]
     /\ completed = Z.of_nat (length (list_jobs two_jobs)))
    \/ (YDict [("status", YStr "failed"); ("jobs_completed", YInt 1);
               ("jobs_failed", YInt 1)]
        = YDict [("status", YStr "failed"); ("jobs_completed", YInt completed);
                 ("jobs_failed", YInt 1)]
        /\ 0 <= completed < Z.of_nat (length (list_jobs two_jobs))).
Proof.
  apply (PipelineRunFacts.process_pipeline_report sim_now sim_pull sim_exec sim_sleep
           fmt None no_group 1 two_jobs YNone YNone fresh
           (snd (sim_process_pipeline two_jobs fresh))).
  - discriminate.
  - vm_compute. reflexivity.
Defined.

Lemma empty_pipeline_passes_parser_fails_run_witness :
  YAMLParser.parse (Return (YDict empty_manifest))
  = Return {| name := YStr "p"; jobs := [] |}
  /\ fst (sim_process_pipeline {| name := YStr "p"; jobs := [] |} fresh)
     = PipelineRun.Done
         (YDict [("status", YStr "failed"); ("jobs_completed", YInt 0);
                 ("jobs_failed", YInt 0);
                 ("error", YStr "Пайплайн не содержит jobs")]).
Proof.
  destruct (PipelineRunFacts.empty_pipeline_passes_parser_fails_run
              sim_now sim_pull sim_exec sim_sleep fmt None no_group
              1 empty_manifest (YStr "p") YNone YNone fresh eq_refl eq_refl)
    as [H1 H2].
  split; [exact H1|]. unfold sim_process_pipeline. rewrite H2. reflexivity.
Defined.

End CaseFacts.

(** ** The orchestrator *)

Module OrchestratorFacts.
Import JobProcessor PipelineStorage Orchestrator.

Section Service.

Context {world : Type}.
Variable now : world -> string * world.
Variable manifest : string -> string + py yvalue.
Variable error_text : py yvalue -> string.

Lemma discover_each_returns pipeline_files : forall pipelines_info (s : @state world),
  exists s',
    discover_each now manifest error_text pipeline_files pipelines_info s
    = (Return (discovered manifest pipeline_files pipelines_info), s').
Proof.
  induction pipeline_files as [|n rest IH]; intros acc s; simpl.
  - exists s. reflexivity.
  - unfold discovery. destruct (manifest n) as [text|loaded].
    + unfold bind.
      destruct (ProcessorFacts.log_error_spec now 0 "orchestrator"
                  ("Ошибка загрузки пайплайна " +:+ n +:+ ": " +:+ text) s)
        as (s1 & E1 & _).
      rewrite E1. apply IH.
    + destruct (YAMLParser.parse loaded) as [config|e].
      * apply IH.
      * unfold bind.
        destruct (ProcessorFacts.log_error_spec now 0 "orchestrator"
                    ("Ошибка загрузки пайплайна " +:+ n +:+ ": " +:+ error_text loaded) s)
          as (s1 & E1 & _).
        rewrite E1. apply IH.
Qed.

Lemma discovered_lookup pipeline_files : forall pipelines_info pipeline_name,
  discovered manifest pipeline_files pipelines_info !! pipeline_name =
  if existsb (String.eqb pipeline_name) pipeline_files
  then match discovery manifest pipeline_name with
       | Some info => Some info
       | None => pipelines_info !! pipeline_name
       end
  else pipelines_info !! pipeline_name.
Proof.
  induction pipeline_files as [|n rest IH]; intros acc pn; simpl; [reflexivity|].
  destruct (String.eqb_spec pn n) as [->|Hn]; simpl.
  - destruct (discovery manifest n) as [info|] eqn:D; rewrite IH.
    + rewrite D, lookup_insert_eq. destruct (existsb _ rest); reflexivity.
    + rewrite D. destruct (existsb _ rest); reflexivity.
  - destruct (discovery manifest n) as [info|] eqn:D; rewrite IH.
    + rewrite lookup_insert_ne by congruence. reflexivity.
    + reflexivity.
Qed.

(** X14.  After a discovery whose listing succeeds, the information stored
    for a listed file whose manifest could be fetched and parsed is its name
    with [auto_run] false, whatever was stored before: an automatic run
    switched on earlier is switched off again.  The information of every
    other file is left as it was. *)
Theorem discover_pipelines_storage (pipeline_files : list string) (f : files)
    (s : @state world) (pipeline_name : string) :
  get_pipeline_info pipeline_name
    (snd (fst (discover_pipelines now manifest error_text (inr pipeline_files) f s)))
  = if existsb (String.eqb pipeline_name) pipeline_files
    then match discovery manifest pipeline_name with
         | Some info => info
         | None => get_pipeline_info pipeline_name f
         end
    else get_pipeline_info pipeline_name f.
Proof.
  unfold discover_pipelines.
  destruct (discover_each_returns pipeline_files ∅ s) as (s' & E). rewrite E.
  simpl. unfold get_pipeline_info, update_pipelines, _load_pipelines, _save_pipelines.
  simpl. rewrite lookup_union, discovered_lookup, lookup_empty.
  destruct (existsb _ pipeline_files).
  - destruct (discovery manifest pipeline_name);
      destruct (default ∅ (pipelines_file f) !! pipeline_name); reflexivity.
  - destruct (default ∅ (pipelines_file f) !! pipeline_name); reflexivity.
Qed.

Lemma run_pipeline_counter pipeline_name telegram_user_id chat_id message_id
    (o : orchestrator) (f : files) (s : @state world) :
  _job_counter (snd (fst (fst (run_pipeline now manifest error_text pipeline_name
                                telegram_user_id chat_id message_id o f s))))
  = _job_counter o + 1.
Proof.
  unfold run_pipeline, _generate_job_id.
  destruct (manifest pipeline_name) as [text|loaded]; [reflexivity|].
  destruct (YAMLParser.parse loaded); reflexivity.
Qed.

(** X15.  Every call of [run_pipeline] uses up the next job id, whether it
    succeeds or not.  When it succeeds, it returns that id, which no run had
    before, registers the run under it with the status [pending] and leaves
    every other run as it was.  When it fails, nothing is registered: the id
    is spent and the status of every id reads as before. *)
Theorem run_pipeline_registers pipeline_name telegram_user_id chat_id message_id
    (o : orchestrator) (f : files) (s : @state world) :
  ids_handed_out o ->
  let r := run_pipeline now manifest error_text pipeline_name telegram_user_id
                        chat_id message_id o f s in
  let o' := snd (fst (fst r)) in
  ids_handed_out o'
  /\ _job_counter o' = _job_counter o + 1
  /\ get_job_status (_job_counter o + 1) o = None
  /\ match fst (fst (fst r)) with
     | inr job_id =>
         job_id = _job_counter o + 1
         /\ info_status <$> get_job_status job_id o' = Some "pending"
         /\ info_pipeline_name <$> get_job_status job_id o' = Some pipeline_name
         /\ forall other, other <> job_id ->
                          get_job_status other o' = get_job_status other o
     | inl _ => forall other, get_job_status other o' = get_job_status other o
     end.
Proof.
  intros [H0 H].
  assert (Fresh : running_jobs o !! (_job_counter o + 1) = None).
  { destruct (running_jobs o !! (_job_counter o + 1)) as [job|] eqn:E; [|reflexivity].
    apply H in E. lia. }
  cbv zeta. split; [|split; [apply run_pipeline_counter|split]].
  - unfold run_pipeline, _generate_job_id, ids_handed_out.
    destruct (manifest pipeline_name) as [text|loaded].
    + simpl. split; [lia|]. intros job_id job E. apply H in E. lia.
    + destruct (YAMLParser.parse loaded) as [config|e]; simpl.
      * split; [lia|]. intros job_id job.
        destruct (decide (_job_counter o + 1 = job_id)) as [<-|Hne].
        -- intros _. lia.
        -- rewrite lookup_insert_ne by exact Hne. intros E. apply H in E. lia.
      * split; [lia|]. intros job_id job E. apply H in E. lia.
  - unfold get_job_status. rewrite Fresh. reflexivity.
  - unfold run_pipeline, _generate_job_id.
    destruct (manifest pipeline_name) as [text|loaded]; [intros other; reflexivity|].
    destruct (YAMLParser.parse loaded) as [config|e]; [|intros other; reflexivity].
    simpl. unfold get_job_status. simpl.
    split; [reflexivity|]. rewrite lookup_insert_eq.
    split; [reflexivity|]. split; [reflexivity|].
    intros other Hne. rewrite lookup_insert_ne by congruence. reflexivity.
Qed.

End Service.
End OrchestratorFacts.

(** ** The reply of [/logs] *)

Module HandlersFacts.
Import Handlers.
Local Open Scope list_scope.

Lemma length_append a b : String.length (a +:+ b) = (String.length a + String.length b)%nat.
Proof.
  induction a as [|c a IH]; [reflexivity|].
  change (String c a +:+ b) with (String c (a +:+ b)). simpl. rewrite IH. reflexivity.
Qed.

Lemma total_cons line lines : total (line :: lines) = (String.length line + total lines)%nat.
Proof.
  unfold total. destruct lines as [|l ls]; simpl.
  - lia.
  - rewrite length_append. reflexivity.
Qed.

(** The loop keeps the response within the bound and only ever puts whole
    lines in front of it, in their order. *)
Lemma fit_spec reversed_lines : forall response_lines,
  (total response_lines <= max_length)%nat ->
  exists taken rest,
    reversed_lines = taken ++ rest
    /\ fit reversed_lines response_lines (total response_lines)
       = map with_newline (rev taken) ++ response_lines
    /\ (total (map with_newline (rev taken) ++ response_lines) <= max_length)%nat
    /\ match rest with
       | [] => True
       | line :: _ =>
           (max_length <
            total (map with_newline (rev taken) ++ response_lines)
            + String.length (with_newline line))%nat
       end.
Proof.
  induction reversed_lines as [|line rest IH]; intros acc Hacc.
  - exists [], []. simpl. repeat split. exact Hacc.
  - simpl fit.
    destruct (Nat.ltb_spec max_length (total acc + String.length (with_newline line)))
      as [Hover|Hfits].
    + exists [], (line :: rest). simpl. repeat split; [exact Hacc | exact Hover].
    + assert (Hacc' : (total (with_newline line :: acc) <= max_length)%nat).
      { rewrite total_cons. lia. }
      destruct (IH (with_newline line :: acc) Hacc') as (taken & rest' & E & F & B & M).
      rewrite total_cons in F.
      rewrite (Nat.add_comm (String.length (with_newline line)) (total acc)) in F.
      exists (line :: taken), rest'. simpl rev. rewrite map_app. simpl map.
      rewrite <- !app_assoc. simpl app.
      split; [rewrite E; reflexivity|]. split; [exact F|]. split; [exact B | exact M].
Qed.

(** X16.  The text [/logs] shows never exceeds 4000 characters.  A log
    within the bound is shown whole; of a longer one the reply holds the
    last lines, whole and in order, as many as fit: the line before them,
    if there is one, would have taken the reply over the bound. *)
Theorem shown_logs_fits (logs : string) :
  (String.length (shown_logs logs) <= max_length)%nat
  /\ ((String.length logs <= max_length)%nat -> shown_logs logs = logs)
  /\ ((max_length < String.length logs)%nat ->
      exists dropped kept,
        Str.split_all (ascii_of_nat 10) logs = dropped ++ kept
        /\ shown_logs logs = String.concat EmptyString (map with_newline kept)
        /\ match rev dropped with
           | [] => True
           | line :: _ =>
               (max_length < String.length (shown_logs logs)
                             + String.length (with_newline line))%nat
           end).
Proof.
  unfold shown_logs.
  assert (S : exists dropped kept,
             Str.split_all (ascii_of_nat 10) logs = dropped ++ kept
             /\ last_lines logs = map with_newline kept
             /\ (total (map with_newline kept) <= max_length)%nat
             /\ match rev dropped with
                | [] => True
                | line :: _ =>
                    (max_length < total (map with_newline kept)
                                  + String.length (with_newline line))%nat
                end).
  { unfold last_lines.
    destruct (fit_spec (rev (Str.split_all (ascii_of_nat 10) logs)) [])
      as (taken & rest & E & F & B & M).
    { unfold total. simpl. unfold max_length. lia. }
    change (total []) with O in F. rewrite app_nil_r in F, B, M.
    exists (rev rest), (rev taken). rewrite rev_involutive.
    split; [|split; [exact F|split; [exact B | exact M]]].
    rewrite <- rev_app_distr, <- E. symmetry. apply rev_involutive. }
  destruct S as (dropped & kept & E & F & B & M).
  destruct (Nat.leb_spec (String.length logs) max_length) as [Hle|Hgt].
  - split; [exact Hle|]. split; [reflexivity|]. intros H. lia.
  - rewrite F. split; [exact B|]. split; [intros H; lia|].
    intros _. exists dropped, kept. split; [exact E|]. split; [reflexivity | exact M].
Qed.

End HandlersFacts.

(** ** More on job groups *)

Module GroupMoreFacts.
Import JobGroupExecutor GroupFacts.
Local Open Scope list_scope.

(** The function of the processor cannot be called as [execute] calls it:
    [telegram_user_id] comes twice. *)
Lemma call_raises run path job_name :
  ProcessJobFunc.process_job_func run call_keywords path job_name = Raise TypeError.
Proof. reflexivity. Qed.

(** An entry of [jobs] that is a string or a mapping: one for which the
    function is called. *)
Definition called_for (item : yvalue) : bool :=
  match entry_of item with
  | Some _ => true
  | None => false
  end.

Lemma job_tasks_raises run path items : forall created,
  existsb called_for items = true ->
  job_tasks (ProcessJobFunc.process_job_func run) path created items = Raise TypeError.
Proof.
  induction items as [|item items IH]; intros created H; [discriminate|].
  cbn [job_tasks]. unfold called_for in H. cbn [existsb] in H.
  destruct (entry_of item) as [[job_item_name necessary]|].
  - rewrite call_raises. reflexivity.
  - apply IH. exact H.
Qed.

(** X17.  Run by the processor, a group never gets to a job of its own.
    The function handed to the executor is called with [telegram_user_id],
    which it already passes itself, so the call for the first entry of
    [jobs] that is a string or a mapping raises [TypeError]: the group ends
    there, with no task created, whatever the pipeline and the rest of the
    group. *)
Theorem jobs_entry_raises run fuel path job_config pipeline_config items :
  iter_items (get_default "jobs" (YList []) job_config) = Return items ->
  existsb called_for items = true ->
  execute (ProcessJobFunc.process_job_func run) (S fuel) path job_config pipeline_config
  = Some {| result := Raise TypeError; returns_at := 0; cancel_requests := [] |}.
Proof.
  intros Hi Hc. cbn [execute]. rewrite Hi. cbn [py_bind].
  rewrite (job_tasks_raises run path items 0 Hc). reflexivity.
Qed.

(** Scenario 5 as the spec has it, a timer and a failing job in one group. *)
Lemma jobs_entry_raises_witness :
  execute (Scenario.child Scenario.deploy_pipeline) 1 []
          Scenario.deploy_group Scenario.deploy_pipeline
  = Some {| result := Raise TypeError; returns_at := 0; cancel_requests := [] |}.
Proof.
  apply (jobs_entry_raises (Scenario.job_run Scenario.deploy_pipeline) 0 []
           Scenario.deploy_group Scenario.deploy_pipeline
           [YDict [("name", YStr "long_timer"); ("is_necessary", YBool false)];
            YDict [("name", YStr "failing"); ("is_necessary", YBool true)]]).
  - reflexivity.
  - reflexivity.
Defined.

(** X18.  A group on a cycle of group references never returns.  Let a set
    of group configurations be such that for each of them the loop over
    [jobs] and the loop over [job_groups] raise nothing, and one of the
    sub-groups it plans is in the set.  Then for a configuration of the set
    no depth of recursion is enough: [execute] has no result.  With the
    function of the processor the condition on [jobs] leaves the groups
    without a string or mapping entry there. *)
Theorem cyclic_group_never_returns
    (process_job_func : list string -> list nat -> yvalue -> py child_run)
    pipeline_config (on_cycle : list (string * yvalue) -> Prop) :
  (forall job_config, on_cycle job_config ->
     (forall path, exists tasks,
        py_bind (iter_items (get_default "jobs" (YList []) job_config))
                (job_tasks process_job_func path 0) = Return tasks)
     /\ exists planned_groups group_name necessary group_config,
          py_bind (iter_items (get_default "job_groups" (YList []) job_config))
                  (plan_groups pipeline_config) = Return planned_groups
          /\ In (group_name, necessary, group_config) planned_groups
          /\ on_cycle group_config) ->
  forall fuel path job_config,
    on_cycle job_config ->
    execute process_job_func fuel path job_config pipeline_config = None.
Proof. apply cycle_stuck. Qed.

(** Two groups that name each other, run by the processor. *)
Definition ping : list (string * yvalue) :=
  [("type", YStr "job_group"); ("job_groups", YList [YStr "pong"])].

Definition pong : list (string * yvalue) :=
  [("type", YStr "job_group"); ("jobs", YList []);
   ("job_groups", YList [Scenario.member "ping" true])].

Definition ping_pong : PipelineConfig :=
  {| name := YStr "p"; jobs := [("ping", YDict ping); ("pong", YDict pong)] |}.

Lemma cyclic_group_never_returns_witness :
  execute (Scenario.child ping_pong) 7 [] ping ping_pong = None.
Proof.
  apply (cyclic_group_never_returns (Scenario.child ping_pong) ping_pong
           (fun c => c = ping \/ c = pong)).
  - intros job_config [-> | ->]; (split; [intros p; exists []; reflexivity|]).
    + exists [(YStr "pong", YBool false, pong)], (YStr "pong"), (YBool false), pong.
      repeat split; [left; reflexivity | right; reflexivity].
    + exists [(YStr "ping", YBool true, ping)], (YStr "ping"), (YBool true), ping.
      repeat split; [left; reflexivity | left; reflexivity].
  - left. reflexivity.
Defined.

End GroupMoreFacts.

(** ** More on the log *)

Module LoggerMoreFacts.
Import Str StrFacts Logger LogLines.
Local Open Scope list_scope.

Lemma append_assoc (a b c : string) : (a +:+ b) +:+ c = a +:+ (b +:+ c).
Proof.
  induction a as [|x a IH]; [reflexivity|].
  change ((String x a +:+ b) +:+ c) with (String x ((a +:+ b) +:+ c)).
  rewrite IH. reflexivity.
Qed.

Lemma readlines_line line rest :
  all_chars no_break line = true ->
  readlines (line +:+ newline +:+ rest) = (line +:+ newline) :: readlines rest.
Proof.
  induction line as [|c line IH]; intros H.
  - reflexivity.
  - simpl in H. apply andb_true_iff in H as [Hc Hl].
    unfold no_break in Hc. apply andb_true_iff in Hc as [H10 H13].
    apply negb_true_iff in H10, H13.
    change (String c line +:+ newline +:+ rest)
      with (String c (line +:+ newline +:+ rest)).
    simpl readlines. rewrite H10, H13, (IH Hl). reflexivity.
Qed.

Lemma no_break_numeral c : numeral_char c = true -> no_break c = true.
Proof.
  destruct c as [[] [] [] [] [] [] [] []]; vm_compute; intros; congruence.
Qed.

Lemma format_line_free e :
  line_free e = true -> all_chars no_break (_format_log_line e) = true.
Proof.
  unfold line_free, _format_log_line. intros H.
  apply andb_true_iff in H as [H Hc]. apply andb_true_iff in H as [H Hk].
  apply andb_true_iff in H as [Ht Hs].
  assert (N : forall n, all_chars no_break (of_int n) = true).
  { intros n. eapply all_chars_weaken; [apply no_break_numeral | apply of_int_numeral]. }
  destruct (exit_code e) as [code|];
    rewrite !all_chars_app, Ht, Hs, Hk, Hc, ?N; reflexivity.
Qed.

(** Reading back what was written: one line per entry, in order. *)
Lemma readlines_file_text entries :
  (forall e, In e entries -> line_free e = true) ->
  readlines (file_text entries) = map (fun e => _format_log_line e +:+ newline) entries.
Proof.
  induction entries as [|e entries IH]; intros H; [reflexivity|].
  simpl file_text. rewrite readlines_line.
  - rewrite IH; [reflexivity|]. intros e' Hin. apply H. right. exact Hin.
  - apply format_line_free, H. left. reflexivity.
Qed.

Lemma contains_later sub a s : String.prefix sub s = true -> contains sub (a +:+ s) = true.
Proof.
  intros H. induction a as [|c a IH].
  - change (EmptyString +:+ s) with s. destruct s; cbn [contains]; rewrite H; reflexivity.
  - change (String c a +:+ s) with (String c (a +:+ s)). cbn [contains].
    rewrite IH. apply orb_true_r.
Qed.

Lemma prefix_app_l p : forall s t,
  String.prefix p s = true -> String.prefix p (s +:+ t) = true.
Proof.
  induction p as [|x p IHp]; intros s t Hp; [destruct (s +:+ t); reflexivity|].
  destruct s as [|y s]; [discriminate|].
  change (String y s +:+ t) with (String y (s +:+ t)). simpl in Hp |- *.
  destruct (ascii_dec x y); [apply IHp, Hp | discriminate].
Qed.

Lemma contains_app_l sub a b : contains sub a = true -> contains sub (a +:+ b) = true.
Proof.
  induction a as [|c a IH]; cbn [contains]; intros H.
  - rewrite orb_false_r in H. change (EmptyString +:+ b) with b.
    assert (P : String.prefix sub b = true).
    { destruct sub; [destruct b; reflexivity | discriminate]. }
    destruct b; cbn [contains]; rewrite P; reflexivity.
  - apply orb_true_iff in H as [H|H].
    + change (String c a +:+ b) with (String c (a +:+ b)). cbn [contains].
      change (String c (a +:+ b)) with (String c a +:+ b).
      rewrite (prefix_app_l sub (String c a) b H). reflexivity.
    + change (String c a +:+ b) with (String c (a +:+ b)). cbn [contains].
      rewrite (IH H). apply orb_true_r.
Qed.

Lemma prefix_app p s t : String.prefix s t = true -> String.prefix (p +:+ s) (p +:+ t) = true.
Proof.
  intros H. induction p as [|c p IH]; [exact H|].
  change (String c p +:+ s) with (String c (p +:+ s)).
  change (String c p +:+ t) with (String c (p +:+ t)). simpl.
  destruct (ascii_dec c c); [exact IH | congruence].
Qed.

(** Every line written for a run carries the tag the readers look for. *)
Lemma format_has_tag e :
  contains (job_tag (job_id e)) (_format_log_line e +:+ newline) = true.
Proof.
  apply contains_app_l. unfold _format_log_line.
  set (rest := " STEP:" +:+ step_name e +:+ " " +:+ log_type e +:+ ":" +:+ content e).
  assert (L : contains (job_tag (job_id e))
                ("[" +:+ timestamp e +:+ "] JOB:" +:+ of_int (job_id e) +:+ rest) = true).
  { change ("[" +:+ timestamp e +:+ "] JOB:" +:+ of_int (job_id e) +:+ rest)
      with ("[" +:+ timestamp e +:+ "] " +:+ "JOB:" +:+ of_int (job_id e) +:+ rest).
    rewrite <- (append_assoc "[" (timestamp e)), <- (append_assoc _ "] ").
    apply contains_later. unfold job_tag. apply prefix_app.
    exact (ConfirmationFacts.startswith_app (of_int (job_id e)) rest). }
  destruct (exit_code e); [apply contains_app_l|]; exact L.
Qed.

Lemma rstrip_newline line : rstrip (line +:+ newline) = rstrip line.
Proof.
  induction line as [|c line IH]; [reflexivity|].
  change (String c line +:+ newline) with (String c (line +:+ newline)).
  simpl. rewrite IH. reflexivity.
Qed.

(** X20.  Writing then reading: when a file holds only lines written for one
    run, none of them with a line break inside, the log of that run is these
    lines, all of them and in the order written, each without its trailing
    whitespace. *)
Theorem get_job_logs_returns_the_lines_written (run : Z) (entries : list log_entry) :
  (forall e, In e entries -> job_id e = run /\ line_free e = true) ->
  get_job_logs (Some (file_text entries)) run
  = join newline (map (fun e => rstrip (_format_log_line e)) entries).
Proof.
  intros H. unfold get_job_logs.
  rewrite readlines_file_text by (intros e Hin; apply H, Hin).
  f_equal. induction entries as [|e entries IH]; [reflexivity|].
  simpl. destruct (H e (or_introl eq_refl)) as [<- _].
  rewrite format_has_tag. simpl. rewrite rstrip_newline. f_equal.
  apply IH. intros e' Hin. apply H. right. exact Hin.
Qed.

End LoggerMoreFacts.

(** ** What [log_output] writes *)

Module LogOutputFacts.
Import Str StrFacts Logger JobProcessor.
Local Open Scope list_scope.

Lemma split_on_parts sep text : forall maxsplit part,
  (String.length text <= maxsplit)%nat ->
  In part (split_on sep maxsplit text) ->
  all_chars (fun c => negb (Ascii.eqb c sep)) part = true.
Proof.
  induction text as [|c r IH]; intros m part Hm Hin.
  - simpl in Hin. destruct Hin as [<-|[]]. reflexivity.
  - simpl in Hm, Hin. destruct (Ascii.eqb c sep) eqn:Hc.
    + destruct m as [|m]; [lia|].
      destruct Hin as [<-|Hin]; [reflexivity|].
      apply (IH m part); [lia | exact Hin].
    + assert (Hr : forall p, In p (split_on sep m r) ->
                            all_chars (fun c => negb (Ascii.eqb c sep)) p = true).
      { intros p Hp. apply (IH m p); [lia | exact Hp]. }
      destruct (split_on sep m r) as [|h t].
      * destruct Hin as [<-|[]]. simpl. rewrite Hc. reflexivity.
      * destruct Hin as [<-|Hin].
        -- simpl. rewrite Hc. simpl. apply Hr. left. reflexivity.
        -- apply Hr. right. exact Hin.
Qed.

Section Output.

Context {world : Type}.
Variable now : world -> string * world.

Lemma log_lines_entries job_id step_name lines : forall s : @state world,
  exists added,
    st_log (snd (log_lines now job_id step_name lines s)) = st_log s ++ added
    /\ map content added
       = List.filter (fun line => negb (String.eqb (strip line) EmptyString)) lines
    /\ forall e, In e added ->
         Logger.job_id e = job_id /\ Logger.step_name e = step_name
         /\ log_type e = "LOG" /\ exit_code e = None.
Proof.
  induction lines as [|line lines IH]; intros s.
  - exists []. simpl. rewrite app_nil_r. repeat split; contradiction.
  - simpl log_lines. simpl List.filter.
    destruct (negb (String.eqb (strip line) EmptyString)).
    + unfold bind. unfold write_entry at 1.
      destruct (now (st_world s)) as [ts w].
      set (e0 := {| timestamp := ts; Logger.job_id := job_id;
                    Logger.step_name := step_name; log_type := "LOG";
                    content := line; exit_code := None |}).
      set (s1 := {| st_world := w; st_log := st_log s ++ [e0] |}).
      destruct (IH s1) as (added & E & C & P).
      exists (e0 :: added). split; [|split].
      * rewrite E. unfold s1. simpl. rewrite <- app_assoc. reflexivity.
      * simpl. rewrite C. reflexivity.
      * intros e [<-|Hin]; [repeat split | apply P, Hin].
    + apply IH.
Qed.

(** X21.  [log_output] appends to the log and writes nothing else: one LOG
    entry, without exit code, for each line of the text that is not blank,
    in the order of the text, under the given run id and step name.  The
    content of an entry is never blank and never holds a line feed. *)
Theorem log_output_entries job_id step_name text (s : @state world) :
  exists added,
    st_log (snd (log_output now job_id step_name text s)) = st_log s ++ added
    /\ map content added
       = List.filter (fun line => negb (String.eqb (strip line) EmptyString))
                     (split_all (ascii_of_nat 10) text)
    /\ forall e, In e added ->
         Logger.job_id e = job_id /\ Logger.step_name e = step_name
         /\ log_type e = "LOG" /\ exit_code e = None
         /\ all_chars is_space (content e) = false
         /\ all_chars (fun c => negb (Ascii.eqb c (ascii_of_nat 10))) (content e) = true.
Proof.
  unfold log_output.
  destruct (log_lines_entries job_id step_name (split_all (ascii_of_nat 10) text) s)
    as (added & E & C & P).
  exists added. split; [exact E|]. split; [exact C|].
  intros e Hin. destruct (P e Hin) as (P1 & P2 & P3 & P4).
  repeat split; try assumption.
  - assert (F : In (content e)
                   (List.filter (fun line => negb (String.eqb (strip line) EmptyString))
                                (split_all (ascii_of_nat 10) text))).
    { rewrite <- C. apply in_map, Hin. }
    apply filter_In in F as [_ F]. apply negb_true_iff in F.
    rewrite DispatchFacts.strip_blank in F. exact F.
  - assert (F : In (content e)
                   (List.filter (fun line => negb (String.eqb (strip line) EmptyString))
                                (split_all (ascii_of_nat 10) text))).
    { rewrite <- C. apply in_map, Hin. }
    apply filter_In in F as [F _].
    apply (split_on_parts (ascii_of_nat 10) text (String.length text)); [lia | exact F].
Qed.

End Output.
End LogOutputFacts.

(** ** What the parser guarantees *)

Module ParserMoreFacts.
Import YAMLParser StepValidator ParserFacts.
Local Open Scope list_scope.

Lemma check_steps_shape (steps : list yvalue) :
  check_steps steps =
  if forallb validate_step steps then Return tt else Raise ValueError.
Proof.
  induction steps as [|s steps IH]; [reflexivity|].
  simpl. destruct s as [| | | | |d|]; try reflexivity.
  simpl. destruct (has_key "run" d); [exact IH | reflexivity].
Qed.

(** X22.  The rule [parse] applies to the steps of a container job is the
    one [validate_step] states: the steps pass exactly when [validate_step]
    accepts each of them, and otherwise the manifest is rejected with a
    [ValueError]. *)
Theorem check_steps_is_validate_step (steps : list yvalue) :
  check_steps steps =
  if forallb validate_step steps then Return tt else Raise ValueError.
Proof. apply check_steps_shape. Qed.

Lemma check_jobs_inv js :
  check_jobs js = Return tt ->
  forall job_name cfg, In (job_name, cfg) js -> check_job cfg = Return tt.
Proof.
  induction js as [|[n c] js IH]; intros H job_name cfg Hin; [destruct Hin|].
  simpl in H. destruct (check_job c) as [[]|e] eqn:E; [|discriminate].
  destruct Hin as [[= <- <-]|Hin]; [exact E | apply (IH H job_name cfg Hin)].
Qed.

Lemma check_job_inv cfg :
  check_job cfg = Return tt ->
  exists jc,
    cfg = YDict jc
    /\ (eq_str (job_type jc) "timer" = true -> has_key "duration" jc = true)
    /\ (eq_str (job_type jc) "confirmation" = true -> has_key "message" jc = true)
    /\ (eq_str (job_type jc) "job_group" = true ->
        has_key "jobs" jc || has_key "job_groups" jc = true)
    /\ (container_kind jc = true ->
        exists steps,
          dict_get "steps" jc = Some (YList steps)
          /\ forallb validate_step steps = true
          /\ has_key "image" jc || existsb step_has_image steps = true).
Proof.
  destruct cfg as [| | | | |jc|]; try discriminate.
  unfold check_job, container_kind. intros H. exists jc. split; [reflexivity|].
  destruct (eq_str (job_type jc) "timer") eqn:K1.
  { destruct (has_key "duration" jc); [|discriminate].
    destruct (job_type jc) as [| | |t| | |]; try discriminate.
    simpl in K1. apply String.eqb_eq in K1. subst t.
    repeat split; try reflexivity; discriminate. }
  destruct (eq_str (job_type jc) "confirmation") eqn:K2.
  { destruct (has_key "message" jc); [|discriminate].
    destruct (job_type jc) as [| | |t| | |]; try discriminate.
    simpl in K2. apply String.eqb_eq in K2. subst t.
    repeat split; try reflexivity; discriminate. }
  destruct (eq_str (job_type jc) "job_group") eqn:K3.
  { destruct (has_key "jobs" jc || has_key "job_groups" jc) eqn:K; [|discriminate].
    repeat split; try reflexivity; discriminate. }
  split; [discriminate|]. split; [discriminate|]. split; [discriminate|].
  intros _. destruct (dict_get "steps" jc) as [[| | | |steps| |]|]; try discriminate.
  destruct (has_key "image" jc || existsb step_has_image steps) eqn:I; [|discriminate].
  exists steps. split; [reflexivity|]. split; [|exact I].
  rewrite check_steps_shape in H.
  destruct (forallb validate_step steps); [reflexivity | discriminate].
Qed.

(** X23.  What an accepted manifest is known to satisfy.  The pipeline
    keeps the name and the jobs of the manifest, in the order of the
    manifest.  Every job is a mapping; a timer has a [duration], a
    confirmation a [message], a group a [jobs] or a [job_groups] key; any
    other job has a list of [steps], each a mapping with a [run] key, and an
    [image] on the job or on at least one step. *)
Theorem parse_guarantee (loaded : py yvalue) (pipeline_config : PipelineConfig) :
  parse loaded = Return pipeline_config ->
  (exists config,
     loaded = Return (YDict config)
     /\ dict_get "name" config = Some (name pipeline_config)
     /\ dict_get "jobs" config = Some (YDict (jobs pipeline_config)))
  /\ list_jobs pipeline_config = map fst (jobs pipeline_config)
  /\ forall job_name cfg, In (job_name, cfg) (jobs pipeline_config) ->
       exists jc,
         cfg = YDict jc
         /\ (eq_str (job_type jc) "timer" = true -> has_key "duration" jc = true)
         /\ (eq_str (job_type jc) "confirmation" = true -> has_key "message" jc = true)
         /\ (eq_str (job_type jc) "job_group" = true ->
             has_key "jobs" jc || has_key "job_groups" jc = true)
         /\ (container_kind jc = true ->
             exists steps,
               dict_get "steps" jc = Some (YList steps)
               /\ forallb validate_step steps = true
               /\ has_key "image" jc || existsb step_has_image steps = true).
Proof.
  unfold parse. intros H.
  destruct loaded as [[| | | | |config|]|e]; try discriminate.
  destruct (dict_get "name" config) as [nm|] eqn:Hn; [|discriminate].
  destruct (dict_get "jobs" config) as [[| | | | |js|]|] eqn:Hj; try discriminate.
  destruct (check_jobs js) as [[]|e] eqn:C; [|discriminate].
  simpl in H. injection H as <-. simpl.
  split; [exists config; repeat split; assumption|].
  split; [reflexivity|].
  intros job_name cfg Hin. apply check_job_inv.
  apply (check_jobs_inv js C job_name cfg Hin).
Qed.

Lemma parse_guarantee_witness :
  list_jobs {| name := YStr "p"; jobs := Scenario.knotted_jobs |}
  = map fst (jobs {| name := YStr "p"; jobs := Scenario.knotted_jobs |}).
Proof.
  apply (parse_guarantee (Return (YDict Scenario.knotted))
           {| name := YStr "p"; jobs := Scenario.knotted_jobs |}).
  reflexivity.
Defined.

End ParserMoreFacts.

(** ** A container job always reports *)

Module ReportFacts.
Import Logger YAMLParser JobProcessor ProcessorFacts DispatchFacts.
Local Open Scope list_scope.

Section Report.

Context {world : Type}.
Variable now : world -> string * world.
Variable pull_image : yvalue -> world -> bool * world.
Variable execute_step :
  yvalue -> yvalue -> yvalue -> yvalue -> world -> (Z * string) * world.
Variable sleep : Z -> world -> world.
Variable format : yvalue -> string.

(** A step that is a mapping with an image of its own, or one to inherit. *)
Lemma extract_step_info_returns d job_image :
  truthy (get_default "image" job_image d) = true ->
  exists info, extract_step_info (YDict d) job_image = Return info.
Proof.
  intros H. unfold extract_step_info. rewrite H. simpl. eexists. reflexivity.
Qed.

Lemma run_steps_returns job_id job_image steps : forall acc (s : @state world),
  (forall step, In step steps ->
     exists d, step = YDict d /\ truthy (get_default "image" job_image d) = true) ->
  exists c s',
    run_steps now pull_image execute_step format job_id job_image steps acc s
    = (Return c, s').
Proof.
  induction steps as [|step rest IH]; intros acc s H.
  - exists acc, s. reflexivity.
  - assert (Hrest : forall step', In step' rest ->
              exists d, step' = YDict d
                        /\ truthy (get_default "image" job_image d) = true).
    { intros step' Hin. apply H. right. exact Hin. }
    destruct (run_steps now pull_image execute_step format job_id job_image
                        (step :: rest) acc s) as [r s'] eqn:E.
    pose proof (run_steps_cons now pull_image execute_step format
                  job_id job_image step rest acc r s s' E) as C.
    destruct C as [(e & X & _)|[(s1 & R)|[(s1 & R)|R]]].
    + destruct (H step (or_introl eq_refl)) as (d & -> & T).
      destruct (extract_step_info_returns d job_image T) as (info & I).
      congruence.
    + destruct (IH {| steps_completed := steps_completed acc;
                      steps_failed := steps_failed acc + 1;
                      job_status := "failed" |} s1 Hrest) as (c & s2 & R').
      rewrite R' in R. injection R as <- <-. exists c, s2. reflexivity.
    + destruct (IH {| steps_completed := steps_completed acc + 1;
                      steps_failed := steps_failed acc;
                      job_status := job_status acc |} s1 Hrest) as (c & s2 & R').
      rewrite R' in R. injection R as <- <-. exists c, s2. reflexivity.
    + subst r. eexists. exists s'. reflexivity.
Qed.

(** X24.  A container job whose steps are mappings that each have an image,
    their own or the one of the job, never raises: for every behaviour of
    the runner, [process_job] returns a report of [status],
    [steps_completed] and [steps_failed], in which the status is [success]
    exactly when no step failed. *)
Theorem container_job_reports
    (confirmation_execute :
       option (Z -> yvalue -> list (string * yvalue) -> yvalue -> yvalue -> @M world yvalue))
    (group_execute : Z -> yvalue -> list (string * yvalue) -> PipelineConfig -> @M world yvalue)
    job_id pipeline_config job_name jc steps chat_id message_id (s : @state world) :
  dict_get job_name (jobs pipeline_config) = Some (YDict jc) ->
  container_kind jc = true ->
  dict_get "steps" jc = Some (YList steps) ->
  steps <> [] ->
  (forall step, In step steps ->
     exists d, step = YDict d
               /\ truthy (get_default "image" (get_default "image" YNone jc) d) = true) ->
  exists c s',
    process_job now pull_image execute_step sleep format confirmation_execute
                group_execute job_id pipeline_config (YStr job_name)
                chat_id message_id s
    = (Return (YDict [("status", YStr (job_status c));
                      ("steps_completed", YInt (steps_completed c));
                      ("steps_failed", YInt (steps_failed c))]), s')
    /\ (job_status c = "success" <-> steps_failed c = 0).
Proof.
  intros Hj K Hs Hne Himg.
  unfold process_job. unfold bind at 1. unfold lift, get_job. rewrite Hj.
  assert (T : truthy (YDict jc) = true).
  { destruct jc; [discriminate Hs | reflexivity]. }
  rewrite T. change (negb true) with false. cbv beta iota.
  unfold container_kind, job_type in K.
  apply andb_true_iff in K as [K K3]. apply andb_true_iff in K as [K1 K2].
  apply negb_true_iff in K1, K2, K3. rewrite K1, K2, K3.
  assert (G : get_default "steps" (YList []) jc = YList steps).
  { unfold get_default. rewrite Hs. reflexivity. }
  rewrite G.
  assert (T2 : negb (truthy (YList steps)) = false).
  { destruct steps; [congruence | reflexivity]. }
  rewrite T2.
  destruct (log_status_spec now job_id (format (YStr job_name)) "running" s)
    as (s1 & E1 & _).
  unfold bind at 1. rewrite E1.
  unfold bind at 1. unfold lift. simpl iter_items. cbv beta iota.
  destruct (run_steps_returns job_id (get_default "image" YNone jc) steps
              {| steps_completed := 0; steps_failed := 0; job_status := "success" |}
              s1 Himg) as (c & s2 & R).
  unfold bind at 1. rewrite R.
  destruct (log_status_spec now job_id (format (YStr job_name)) (job_status c) s2)
    as (s3 & E3 & _).
  unfold bind at 1. rewrite E3. unfold ret.
  exists c, s3. split; [reflexivity|].
  apply run_steps_counters in R. simpl in R.
  destruct R as (R1 & R2 & R3 & R4 & R5).
  assert (D : steps_failed c = 0 \/ 0 < steps_failed c) by lia.
  destruct D as [D|D].
  - destruct (R4 D) as [St _]. rewrite St. split; intros; [exact D | reflexivity].
  - rewrite (R5 D). split; [discriminate | lia].
Qed.

End Report.

Lemma container_job_reports_witness :
  exists c s',
    Scenario.sim_process_job 7 Scenario.build_pipeline (YStr "build") Scenario.fresh
    = (Return (YDict [("status", YStr (job_status c));
                      ("steps_completed", YInt (steps_completed c));
                      ("steps_failed", YInt (steps_failed c))]), s')
    /\ (job_status c = "success" <-> steps_failed c = 0).
Proof.
  apply (container_job_reports Scenario.sim_now Scenario.sim_pull Scenario.sim_exec
           Scenario.sim_sleep Scenario.fmt None Scenario.no_group
           7 Scenario.build_pipeline "build"
           [("steps", YList Cases.build_steps)] Cases.build_steps YNone YNone
           Scenario.fresh).
  - reflexivity.
  - reflexivity.
  - reflexivity.
  - discriminate.
  - intros step [<-|[<-|[]]]; eexists; split; reflexivity.
Defined.

End ReportFacts.

(** ** More on the memory limit *)

Module DockerMoreFacts.
Import Str StrFacts DockerExecutor.

Lemma lower_char_idem c : lower_char (lower_char c) = lower_char c.
Proof. destruct c as [[] [] [] [] [] [] [] []]; reflexivity. Qed.

Lemma is_space_lower c : is_space (lower_char c) = is_space c.
Proof. destruct c as [[] [] [] [] [] [] [] []]; reflexivity. Qed.

Lemma lower_idem s : lower (lower s) = lower s.
Proof.
  induction s as [|c s IH]; simpl; [reflexivity|].
  rewrite lower_char_idem, IH. reflexivity.
Qed.

Lemma lstrip_lower s : lstrip (lower s) = lower (lstrip s).
Proof.
  induction s as [|c s IH]; simpl; [reflexivity|].
  rewrite is_space_lower. destruct (is_space c); [exact IH | reflexivity].
Qed.

Lemma rstrip_lower s : rstrip (lower s) = lower (rstrip s).
Proof.
  induction s as [|c s IH]; simpl; [reflexivity|].
  rewrite IH, is_space_lower.
  destruct (rstrip s); simpl; [destruct (is_space c)|]; reflexivity.
Qed.

Lemma strip_lower s : strip (lower s) = lower (strip s).
Proof. unfold strip. rewrite lstrip_lower. apply rstrip_lower. Qed.

Lemma rstrip_idem s : rstrip (rstrip s) = rstrip s.
Proof.
  induction s as [|c s IH]; simpl; [reflexivity|].
  destruct (rstrip s) as [|c' r'] eqn:E.
  - destruct (is_space c) eqn:Hc; simpl; [reflexivity|]. rewrite Hc. reflexivity.
  - simpl in IH |- *. destruct (rstrip r') eqn:E'.
    + destruct (is_space c'); [discriminate IH|]. rewrite IH. reflexivity.
    + rewrite IH. reflexivity.
Qed.

Lemma lstrip_rstrip_lstrip s : lstrip (rstrip (lstrip s)) = rstrip (lstrip s).
Proof.
  induction s as [|c s IH]; [reflexivity|].
  simpl lstrip. destruct (is_space c) eqn:Hc; [exact IH|].
  cbn [rstrip]. destruct (rstrip s); rewrite ?Hc; cbn [lstrip]; rewrite Hc; reflexivity.
Qed.

Lemma strip_idem s : strip (strip s) = strip s.
Proof. unfold strip. rewrite lstrip_rstrip_lstrip. apply rstrip_idem. Qed.

(** X25.  The memory limit is read without regard to the case of its
    letters or to whitespace around it: lowering the limit, or stripping it,
    before the call changes neither the bytes returned nor the error
    raised. *)
Theorem convert_memory_limit_normalises (memory_limit : string) :
  _convert_memory_limit (lower memory_limit) = _convert_memory_limit memory_limit
  /\ _convert_memory_limit (strip memory_limit) = _convert_memory_limit memory_limit.
Proof.
  unfold _convert_memory_limit. split.
  - rewrite lower_idem. reflexivity.
  - rewrite (strip_lower (strip memory_limit)), strip_idem, <- strip_lower.
    reflexivity.
Qed.

End DockerMoreFacts.

(** ** [shared/git_service.py] *)

Module GitFacts.
Import Str StrFacts GitService.
Local Open Scope list_scope.

Lemma eqb_with_char (x : ascii) suf a b :
  all_chars (fun c => negb (Ascii.eqb c x)) suf = true ->
  String.eqb (a +:+ String x b) suf = false.
Proof.
  intros H. destruct (String.eqb (a +:+ String x b) suf) eqn:E; [|reflexivity].
  apply String.eqb_eq in E. subst suf.
  rewrite all_chars_app in H. cbn [all_chars] in H.
  rewrite Ascii.eqb_refl in H. cbn [negb andb] in H.
  rewrite andb_false_r in H. discriminate.
Qed.

(** A suffix without the character [x] is looked for after the last [x]. *)
Lemma endswith_after (x : ascii) suf a b :
  all_chars (fun c => negb (Ascii.eqb c x)) suf = true ->
  endswith suf (a +:+ String x b) = endswith suf b.
Proof.
  intros H. induction a as [|c a IH].
  - pose proof (eqb_with_char x suf EmptyString b H) as E.
    change (EmptyString +:+ String x b) with (String x b) in *.
    cbn [endswith]. rewrite E. reflexivity.
  - pose proof (eqb_with_char x suf (String c a) b H) as E.
    change (String c a +:+ String x b) with (String c (a +:+ String x b)) in *.
    cbn [endswith]. rewrite E. exact IH.
Qed.

Lemma drop_last4_git s : drop_last4 (s +:+ ".git") = s.
Proof.
  unfold drop_last4.
  change ".git" with ("." +:+ ("g" +:+ ("i" +:+ "t"))).
  rewrite <- !LoggerMoreFacts.append_assoc.
  rewrite !drop_last_app. reflexivity.
Qed.

Lemma prefix_chars (p : ascii -> bool) sep : forall s,
  String.prefix sep s = true -> all_chars p s = true -> all_chars p sep = true.
Proof.
  induction sep as [|a sep IH]; intros s Hp Hs; [reflexivity|].
  destruct s as [|b s]; [discriminate|].
  simpl in Hp. destruct (ascii_dec a b) as [->|]; [|discriminate].
  cbn [all_chars] in *. apply andb_true_iff in Hs as [Hb Hs].
  rewrite Hb. exact (IH s Hp Hs).
Qed.

(** A separator with a character the text does not have cuts nothing. *)
Lemma split_sub_absent (p : ascii -> bool) sep s :
  all_chars p sep = false -> all_chars p s = true -> split_sub sep 0 s = [s].
Proof.
  intros Hsep. induction s as [|c r IH]; intros Hs; [reflexivity|].
  cbn [split_sub].
  destruct (String.prefix sep (String c r)) eqn:E.
  - rewrite (prefix_chars p sep _ E Hs) in Hsep. discriminate.
  - cbn [all_chars] in Hs. apply andb_true_iff in Hs as [_ Hs].
    rewrite (IH Hs). reflexivity.
Qed.

Lemma name_not_space s :
  all_chars name_char s = true -> all_chars (fun c => negb (is_space c)) s = true.
Proof.
  apply all_chars_weaken. intros c H. unfold name_char in H.
  apply andb_true_iff in H as [H _]. apply andb_true_iff in H as [H _]. exact H.
Qed.

Lemma name_not_slash s :
  all_chars name_char s = true ->
  all_chars (fun c => negb (Ascii.eqb c "/")) s = true.
Proof.
  apply all_chars_weaken. intros c H. unfold name_char in H.
  apply andb_true_iff in H as [H _]. apply andb_true_iff in H as [_ H]. exact H.
Qed.

Lemma name_not_colon s :
  all_chars name_char s = true ->
  all_chars (fun c => negb (Ascii.eqb c ":")) s = true.
Proof.
  apply all_chars_weaken. intros c H. unfold name_char in H.
  apply andb_true_iff in H as [_ H]. exact H.
Qed.

(** The parts of [owner/repo]. *)
Lemma split_all_pair owner repo :
  all_chars name_char owner = true -> all_chars name_char repo = true ->
  split_all "/" (owner +:+ String "/" repo) = [owner; repo].
Proof.
  intros Ho Hr. unfold split_all.
  rewrite HandlersFacts.length_append. cbn [String.length].
  rewrite Nat.add_succ_r.
  rewrite (split_on_cut "/" _ owner repo (name_not_slash _ Ho)).
  rewrite (DispatchFacts.split_on_absent "/" _ repo (name_not_slash _ Hr)).
  reflexivity.
Qed.

Lemma split_all_single repo :
  all_chars name_char repo = true -> split_all "/" repo = [repo].
Proof.
  intros Hr. unfold split_all.
  apply DispatchFacts.split_on_absent, name_not_slash, Hr.
Qed.

Lemma split_sub_skip sep x rest :
  split_sub sep (String.length x) (x +:+ rest) = split_sub sep 0 rest.
Proof.
  induction x as [|c x IH]; [destruct rest; reflexivity|].
  change (String c x +:+ rest) with (String c (x +:+ rest)).
  cbn [String.length split_sub]. exact IH.
Qed.

(** A text that starts with the separator: an empty part, then the rest. *)
Lemma split_sub_leading (c : ascii) sep rest :
  split_sub (String c sep) 0 (String c sep +:+ rest)
  = EmptyString :: split_sub (String c sep) 0 rest.
Proof.
  pose proof (ConfirmationFacts.startswith_app (String c sep) rest) as P.
  unfold startswith in P.
  change (String c sep +:+ rest) with (String c (sep +:+ rest)) in *.
  cbn [split_sub]. rewrite P. cbn [String.length].
  rewrite Nat.sub_succ, Nat.sub_0_r, split_sub_skip. reflexivity.
Qed.

(** What [_parse_repo_info] makes of a URL once stripped and without its
    [.git]: the prefix is cut off and the rest read as a path. *)
Lemma parts_of (prefix rest : string) :
  prefix = "https://github.com/" \/ prefix = "git@github.com:" ->
  all_chars (fun c => negb (Ascii.eqb c ":")) rest = true ->
  (if startswith "https://github.com/" (prefix +:+ rest) then
     Return (split_all "/" (replace "https://github.com/" EmptyString (prefix +:+ rest)))
   else if startswith "git@github.com:" (prefix +:+ rest) then
     Return (split_all "/" (replace "git@github.com:" EmptyString (prefix +:+ rest)))
   else Raise ValueError)
  = Return (split_all "/" rest).
Proof.
  intros [-> | ->] Hrest.
  - rewrite ConfirmationFacts.startswith_app. unfold replace.
    rewrite (split_sub_leading "h" "ttps://github.com/" rest).
    rewrite (split_sub_absent (fun c => negb (Ascii.eqb c ":")) "https://github.com/"
               rest eq_refl Hrest).
    reflexivity.
  - change (startswith "https://github.com/" ("git@github.com:" +:+ rest)) with false.
    cbv iota. rewrite ConfirmationFacts.startswith_app. unfold replace.
    rewrite (split_sub_leading "g" "it@github.com:" rest).
    rewrite (split_sub_absent (fun c => negb (Ascii.eqb c ":")) "git@github.com:"
               rest eq_refl Hrest).
    reflexivity.
Qed.

Lemma prefix_not_space prefix :
  prefix = "https://github.com/" \/ prefix = "git@github.com:" ->
  all_chars (fun c => negb (is_space c)) prefix = true.
Proof. intros [-> | ->]; reflexivity. Qed.

(** The prefix ends with a character that [.git] does not have. *)
Lemma endswith_git_prefix prefix rest :
  prefix = "https://github.com/" \/ prefix = "git@github.com:" ->
  endswith ".git" (prefix +:+ rest) = endswith ".git" rest.
Proof.
  intros [-> | ->].
  - change ("https://github.com/" +:+ rest)
      with ("https://github.com" +:+ String "/" rest).
    apply endswith_after. reflexivity.
  - change ("git@github.com:" +:+ rest) with ("git@github.com" +:+ String ":" rest).
    apply endswith_after. reflexivity.
Qed.

(** X26.  A repository URL of one of the two supported forms,
    [https://github.com/owner/repo] or [git@github.com:owner/repo], is read
    as that owner and that repository, with or without a final [.git].  A
    URL with a single name after the prefix is rejected with a
    [ValueError]. *)
Theorem parse_repo_info_reads (prefix owner repo : string) :
  prefix = "https://github.com/" \/ prefix = "git@github.com:" ->
  all_chars name_char owner = true ->
  all_chars name_char repo = true ->
  endswith ".git" repo = false ->
  _parse_repo_info (prefix +:+ owner +:+ "/" +:+ repo) = Return (owner, repo)
  /\ _parse_repo_info (prefix +:+ owner +:+ "/" +:+ repo +:+ ".git") = Return (owner, repo)
  /\ _parse_repo_info (prefix +:+ repo) = Raise ValueError.
Proof.
  intros Hp Ho Hr Hgit.
  pose proof (prefix_not_space prefix Hp) as Sp.
  pose proof (name_not_space _ Ho) as So.
  pose proof (name_not_space _ Hr) as Sr.
  assert (Crest : all_chars (fun c => negb (Ascii.eqb c ":")) (owner +:+ String "/" repo)
                  = true).
  { rewrite all_chars_app. cbn [all_chars].
    rewrite (name_not_colon _ Ho), (name_not_colon _ Hr). reflexivity. }
  change ("/" +:+ repo) with (String "/" repo).
  change ("/" +:+ repo +:+ ".git") with (String "/" (repo +:+ ".git")).
  split; [|split].
  - unfold _parse_repo_info.
    rewrite strip_id
      by (rewrite !all_chars_app; cbn [all_chars]; rewrite Sp, So, Sr; reflexivity).
    rewrite (endswith_git_prefix prefix _ Hp).
    rewrite (endswith_after "/" ".git" owner repo eq_refl), Hgit.
    rewrite (parts_of prefix _ Hp Crest).
    rewrite (split_all_pair owner repo Ho Hr). reflexivity.
  - unfold _parse_repo_info.
    rewrite strip_id
      by (rewrite !all_chars_app; cbn [all_chars]; rewrite all_chars_app;
          rewrite Sp, So, Sr; reflexivity).
    assert (E : prefix +:+ owner +:+ String "/" (repo +:+ ".git")
                = (prefix +:+ owner +:+ String "/" repo) +:+ ".git").
    { rewrite !LoggerMoreFacts.append_assoc. reflexivity. }
    rewrite E, endswith_app, drop_last4_git.
    rewrite (parts_of prefix _ Hp Crest).
    rewrite (split_all_pair owner repo Ho Hr). reflexivity.
  - unfold _parse_repo_info.
    rewrite strip_id by (rewrite all_chars_app, Sp, Sr; reflexivity).
    rewrite (endswith_git_prefix prefix _ Hp), Hgit.
    rewrite (parts_of prefix _ Hp (name_not_colon _ Hr)).
    rewrite (split_all_single repo Hr). reflexivity.
Qed.

Lemma parse_repo_info_reads_witness :
  _parse_repo_info "git@github.com:PP-62/cicd" = Return ("PP-62", "cicd")
  /\ _parse_repo_info "git@github.com:PP-62/cicd.git" = Return ("PP-62", "cicd")
  /\ _parse_repo_info "git@github.com:cicd" = Raise ValueError.
Proof.
  apply (parse_repo_info_reads "git@github.com:" "PP-62" "cicd");
    [right; reflexivity | reflexivity | reflexivity | reflexivity].
Defined.

End GitFacts.

(** ** More of the properties, on the cases *)

Module MoreCaseFacts.
Import JobProcessor Scenario Cases.
Local Open Scope list_scope.

Lemma run_pipeline_registers_witness :
  let r := Orchestrator.run_pipeline sim_now sim_manifest sim_error_text
             "deploy.yaml" 42 None None idle_orchestrator no_files fresh in
  let o' := snd (fst (fst r)) in
  Orchestrator.ids_handed_out o'
  /\ Orchestrator._job_counter o' = Orchestrator._job_counter idle_orchestrator + 1
  /\ Orchestrator.get_job_status (Orchestrator._job_counter idle_orchestrator + 1)
                                 idle_orchestrator = None
  /\ match fst (fst (fst r)) with
     | inr job_id =>
         job_id = Orchestrator._job_counter idle_orchestrator + 1
         /\ Orchestrator.info_status <$> Orchestrator.get_job_status job_id o'
            = Some "pending"
         /\ Orchestrator.info_pipeline_name <$> Orchestrator.get_job_status job_id o'
            = Some "deploy.yaml"
         /\ forall other, other <> job_id ->
               Orchestrator.get_job_status other o'
               = Orchestrator.get_job_status other idle_orchestrator
     | inl _ =>
         forall other, Orchestrator.get_job_status other o'
                       = Orchestrator.get_job_status other idle_orchestrator
     end.
Proof.
  apply (OrchestratorFacts.run_pipeline_registers sim_now sim_manifest sim_error_text
           "deploy.yaml" 42 None None idle_orchestrator no_files fresh).
  split; [simpl; lia|].
  intros job_id job. simpl. rewrite lookup_empty. discriminate.
Defined.

Lemma shown_logs_fits_witness :
  Handlers.shown_logs "one line" = "one line"
  /\ exists dropped kept,
       Str.split_all (ascii_of_nat 10) long_log = dropped ++ kept
       /\ Handlers.shown_logs long_log
          = String.concat EmptyString (map Handlers.with_newline kept)
       /\ match rev dropped with
          | [] => True
          | line :: _ =>
              (Handlers.max_length < String.length (Handlers.shown_logs long_log)
                                     + String.length (Handlers.with_newline line))%nat
          end.
Proof.
  split.
  - apply (proj1 (proj2 (HandlersFacts.shown_logs_fits "one line"))).
    vm_compute. repeat constructor.
  - apply (proj2 (proj2 (HandlersFacts.shown_logs_fits long_log))).
    vm_compute. repeat constructor.
Defined.

Lemma get_job_logs_returns_the_lines_written_witness :
  Logger.get_job_logs (Some (Logger.file_text log_of_run_1)) 1
  = Str.join Logger.newline
      (map (fun e => Str.rstrip (Logger._format_log_line e)) log_of_run_1).
Proof.
  apply (LoggerMoreFacts.get_job_logs_returns_the_lines_written 1 log_of_run_1).
  intros e Hin. vm_compute in Hin.
  repeat (destruct Hin as [<-|Hin]; [split; reflexivity|]).
  destruct Hin.
Defined.

End MoreCaseFacts.
